(** * AuctionIO: the client queue and host dispatch of [AuctionIO-object.py]

    The development embeds the scheduling core of the Tk application: the
    attributes [num_clients], [id], [clock_tick], [clients_list] and
    [status_list] of class [AuctionIO], and the methods [insert_new_client],
    [change_clock_tick], [update] and the two writes of [step_proc_pb] to the
    host flags.  Widgets, labels and the table redraw carry no decision and
    are left out.

    Numbers.  Python's [int] is [Z].  Python's [float] is idealised as a real
    number ([R]): [1 / c] and [v / c] are exact quotients and [math.log] is the
    natural logarithm [ln].  What the interpreter raises is kept: true division
    by zero is [ZeroDivisionError], [math.log] of a non-positive argument is
    [ValueError], indexing past the end of a list is [IndexError].  Rounding,
    overflow and NaN of IEEE doubles are outside this model.

    Effects.  Both methods run on the Tk main loop, so they are modelled as
    sequential programs in a state-and-exception monad [prog]: a raised
    exception stops the method and leaves the attributes as they were written
    so far, which is what Python does.  [random.randint] reads from an explicit
    source of raw draws kept in the state.  [Thread(...).start()] is recorded
    in the state as a started thread; the body of the thread runs on its own. *)

From Stdlib Require Import ZArith List Reals Lra Lia.
From Stdlib Require Import Sorting.Mergesort Sorting.Sorted Sorting.Permutation Orders.
From stdpp Require Import base decidable option list sorting.
Import ListNotations.

(** ** The Python runtime the methods rely on *)

Inductive exn : Set := ZeroDivisionError | ValueError | IndexError.

Inductive result (A : Type) : Type :=
| Ok (a : A)
| Raise (e : exn).
Arguments Ok {A} a.
Arguments Raise {A} e.

#[global] Instance result_ret : MRet result := fun A a => Ok a.
#[global] Instance result_bind : MBind result :=
  fun A B f m => match m with Ok a => f a | Raise e => Raise e end.

#[global] Instance R_eq_dec : EqDecision R := Req_dec_T.
#[global] Instance Rlt_decision (x y : R) : Decision (x < y)%R := Rlt_dec x y.
#[global] Instance Rgt_decision (x y : R) : Decision (x > y)%R := Rgt_dec x y.

(** [a / b] on two [int]s: true division, a float. *)
Definition int_truediv (a b : Z) : result R :=
  if decide (b = 0%Z) then Raise ZeroDivisionError else Ok (IZR a / IZR b)%R.

(** [a / b] on two floats. *)
Definition float_truediv (a b : R) : result R :=
  if decide (b = 0%R) then Raise ZeroDivisionError else Ok (a / b)%R.

(** [math.log] on one argument: a math domain error unless [0 < x]. *)
Definition loghelper (x : R) : result R :=
  if decide (0 < x)%R then Ok (ln x) else Raise ValueError.

(** [math.log(x, base)]: the quotient of the two logarithms. *)
Definition math_log (x base : R) : result R :=
  num ← loghelper x;
  den ← loghelper base;
  float_truediv num den.

(** [l[i]] *)
Definition getitem {A} (l : list A) (i : nat) : result A :=
  match l !! i with Some a => Ok a | None => Raise IndexError end.

(** [max(l)]: the first item is kept until a later one is [>] the kept one. *)
Definition py_max (l : list R) : result R :=
  match l with
  | [] => Raise ValueError
  | x :: l' => Ok (foldl (fun m y => if decide (y > m)%R then y else m) x l')
  end.

(** [l.index(x)]: the position of the first item equal to [x]. *)
Definition py_index {A} `{EqDecision A} (x : A) (l : list A) : result nat :=
  match list_find (fun y => y = x) l with
  | Some (i, _) => Ok i
  | None => Raise ValueError
  end.

(** [l.sort()] on a list of [int]s. *)
Module ZOrder <: TotalLeBool.
Definition t := Z.
Definition leb := Z.leb.
Lemma leb_total : forall x y, is_true (leb x y) \/ is_true (leb y x).
Proof.
  intros x y. unfold leb, is_true. rewrite !Z.leb_le. lia.
Qed.
End ZOrder.

Module ZSort := Sort ZOrder.

(** The random source: the raw draws still to come.  [random.randint(a, b)]
    takes the next one and maps it into [a..b]; every value of the range is
    the image of some raw draw. *)
Definition rng : Type := nat -> Z.

Definition randint (a b : Z) (g : rng) : Z * rng :=
  ((a + g 0%nat mod (b - a + 1))%Z, fun n => g (S n)).

(** ** The application state *)

(** One row of [clients_list]: the Python list [[id, files, time, coefficient]]. *)
Record client : Type := Client {
  cl_id : Z;
  cl_files : list Z;
  cl_time : Z;
  cl_coefficient : R
}.

#[global] Instance client_eq_dec : EqDecision client.
Proof. solve_decision. Defined.

(** A started [Thread]: the host index [i] and the client id
    [max_coefficient[0]] as they stand when [start()] is called. *)
Record thread : Type := Thread {
  th_host : nat;
  th_client : Z
}.

(** The attributes of [AuctionIO].  Of each entry of [status_list] only the
    third component, the activity flag, is kept. *)
Record AuctionIO : Type := App {
  num_clients : Z;
  id : Z;
  clock_tick : Z;
  clients_list : list client;
  status_list : list bool;
  threads : list thread;
  random : rng
}.

Definition set_num_clients (f : Z -> Z) (s : AuctionIO) : AuctionIO :=
  App (f (num_clients s)) (id s) (clock_tick s) (clients_list s)
      (status_list s) (threads s) (random s).
Definition set_id (f : Z -> Z) (s : AuctionIO) : AuctionIO :=
  App (num_clients s) (f (id s)) (clock_tick s) (clients_list s)
      (status_list s) (threads s) (random s).
Definition set_clock_tick (f : Z -> Z) (s : AuctionIO) : AuctionIO :=
  App (num_clients s) (id s) (f (clock_tick s)) (clients_list s)
      (status_list s) (threads s) (random s).
Definition set_clients_list (f : list client -> list client) (s : AuctionIO) : AuctionIO :=
  App (num_clients s) (id s) (clock_tick s) (f (clients_list s))
      (status_list s) (threads s) (random s).
Definition set_status_list (f : list bool -> list bool) (s : AuctionIO) : AuctionIO :=
  App (num_clients s) (id s) (clock_tick s) (clients_list s)
      (f (status_list s)) (threads s) (random s).
Definition set_threads (f : list thread -> list thread) (s : AuctionIO) : AuctionIO :=
  App (num_clients s) (id s) (clock_tick s) (clients_list s)
      (status_list s) (f (threads s)) (random s).
Definition set_random (g : rng) (s : AuctionIO) : AuctionIO :=
  App (num_clients s) (id s) (clock_tick s) (clients_list s)
      (status_list s) (threads s) g.

Definition set_files (f : list Z -> list Z) (c : client) : client :=
  Client (cl_id c) (f (cl_files c)) (cl_time c) (cl_coefficient c).

(** [__init__]: no client, next id 1, a tick of 1000 ms, five idle hosts. *)
Definition init (g : rng) : AuctionIO :=
  App 0 1 1000 [] (replicate 5 false) [] g.

(** ** Methods as programs over the state *)

Definition prog (A : Type) : Type := AuctionIO -> AuctionIO * result A.

#[global] Instance prog_ret : MRet prog := fun A a s => (s, Ok a).
#[global] Instance prog_bind : MBind prog :=
  fun A B f m s =>
    match m s with
    | (s', Ok a) => f a s'
    | (s', Raise e) => (s', Raise e)
    end.

Definition gets {A} (f : AuctionIO -> A) : prog A := fun s => (s, Ok (f s)).
Definition modify (f : AuctionIO -> AuctionIO) : prog unit := fun s => (f s, Ok tt).
Definition lift {A} (r : result A) : prog A := fun s => (s, r).

(** [random.randint(a, b)] against the source held in the state. *)
Definition rand (a b : Z) : prog Z :=
  fun s => let '(x, g) := randint a b (random s) in (set_random g s, Ok x).

(** The expression of lines 163 and 223-224,
    [((1 / c) * t) + math.log(files[0] / c, 1 / 2)], in Python's order of
    evaluation. *)
Definition coefficient (c t : Z) (files : list Z) : result R :=
  a ← int_truediv 1 c;
  v ← getitem files 0;
  x ← int_truediv v c;
  b ← int_truediv 1 2;
  l ← math_log x b;
  mret (a * IZR t + l)%R.

(** [[random.randint(1, 1000) for _ in range(1, n)]], for the [k] items of
    the range. *)
Fixpoint draw_files (k : nat) : prog (list Z) :=
  match k with
  | O => mret []
  | S k' =>
      x ← rand 1 1000;
      xs ← draw_files k';
      mret (x :: xs)
  end.

(** [len(range(1, n))] *)
Definition range_len (n : Z) : nat := Z.to_nat (n - 1).

Definition insert_new_client : prog unit :=
  modify (set_num_clients (fun n => n + 1)%Z);;
  n ← rand 2 11;
  files ← draw_files (range_len n);
  let files := ZSort.sort files in
  c ← gets num_clients;
  coefficient ← lift (coefficient c 0 files);
  i ← gets id;
  modify (set_clients_list (fun l => l ++ [Client i files 0 coefficient]));;
  modify (set_id (fun i => i + 1)%Z).

Definition change_clock_tick (component : Z) : prog unit :=
  modify (set_clock_tick (fun t => t + component)%Z);;
  t ← gets clock_tick;
  if decide (t <= 100)%Z then modify (set_clock_tick (fun _ => 100%Z)) else mret tt.

(** The two writes of [step_proc_pb] to the flag of host [status_index]:
    line 186 before the hundred progress steps, line 196 after them. *)
Definition step_proc_pb_begin (status_index : nat) : prog unit :=
  hosts ← gets status_list;
  _ ← lift (getitem hosts status_index);
  modify (set_status_list (fun l => <[status_index := true]> l)).

Definition step_proc_pb_end (status_index : nat) : prog unit :=
  hosts ← gets status_list;
  _ ← lift (getitem hosts status_index);
  modify (set_status_list (fun l => <[status_index := false]> l)).

(** Lines 221-225: the loop over [range(len(self.clients_list))], with [n]
    rounds left and [i] the current index. *)
Fixpoint refresh_loop (n i : nat) : prog unit :=
  match n with
  | O => mret tt
  | S n' =>
      l ← gets clients_list;
      cl ← lift (getitem l i);
      let new_time := (cl_time cl + 1)%Z in
      c ← gets num_clients;
      new_coefficient ← lift (coefficient c new_time (cl_files cl));
      modify (set_clients_list
                (fun l => <[i := Client (cl_id cl) (cl_files cl) new_time new_coefficient]> l));;
      refresh_loop n' (S i)
  end.

(** Lines 228-231.  [max_coefficient] is either [0] ([None] here) or the row
    of the first greatest coefficient; the row is a reference into
    [clients_list], so it is kept as its position. *)
Definition select_max (l : list client) : result (option nat) :=
  if decide (l = []) then mret None
  else
    m ← py_max (cl_coefficient <$> l);
    k ← py_index m (cl_coefficient <$> l);
    _ ← getitem l k;
    mret (Some k).

(** The scan of lines 235-236 for the first host whose flag [is False]. *)
Definition first_idle (hosts : list bool) : option nat :=
  fst <$> list_find (fun b => b = false) hosts.

(** Lines 238-246 for host [i] and the row at position [k].  The name
    [max_coefficient] is bound to the row object that sits at [k]; line 241
    changes the file list of the row [index] finds, and what
    [max_coefficient] then denotes is read again from position [k], so that
    a change of that very row is seen through the name.  [del] of an item
    that is not there raises [IndexError]. *)
Definition serve (i k : nat) : prog unit :=
  l ← gets clients_list;
  max_coefficient ← lift (getitem l k);
  (* 238-240: Thread(...).start() *)
  modify (set_threads (fun ts => ts ++ [Thread i (cl_id max_coefficient)]));;
  (* 241: del self.clients_list[self.clients_list.index(max_coefficient)][1][0] *)
  idx ← lift (py_index max_coefficient l);
  cl ← lift (getitem l idx);
  _ ← lift (getitem (cl_files cl) 0);
  modify (set_clients_list (fun l => <[idx := set_files (drop 1) cl]> l));;
  (* 243: if not len(self.clients_list[self.clients_list.index(max_coefficient)][1]) *)
  l ← gets clients_list;
  max_coefficient ← lift (getitem l k);
  idx ← lift (py_index max_coefficient l);
  cl ← lift (getitem l idx);
  if decide (length (cl_files cl) = 0%nat) then
    (* 244: self.num_clients -= 1 *)
    modify (set_num_clients (fun n => n - 1)%Z);;
    (* 246: del self.clients_list[self.clients_list.index(max_coefficient)] *)
    idx ← lift (py_index max_coefficient l);
    _ ← lift (getitem l idx);
    modify (set_clients_list (fun l => delete idx l))
  else mret tt.

(** [update], lines 221-247; the redraw of the table and the call of
    [after] that schedules the next tick follow and change no attribute. *)
Definition update : prog unit :=
  n ← gets (fun s => length (clients_list s));
  refresh_loop n 0;;
  l ← gets clients_list;
  max_coefficient ← lift (select_max l);
  match max_coefficient with
  | None => mret tt
  | Some k =>
      hosts ← gets status_list;
      match first_idle hosts with
      | None => mret tt
      | Some i => serve i k
      end
  end.

(** ** The rest of the class *)

(** [time.sleep(secs)]: a negative length is a [ValueError]. *)
Definition time_sleep (secs : R) : result unit :=
  if decide (secs < 0)%R then Raise ValueError else Ok tt.

(** Lines 189-193, the hundred progress steps of [step_proc_pb], with [n]
    rounds left.  The writes to the progress bar and its label are left out;
    each round reads [clock_tick] and sleeps [0.05 * (clock_tick / 1000)]
    seconds.  [slept] adds up the seconds slept so far, so that the run
    returns how long the upload took. *)
Fixpoint progress_loop (n : nat) (slept : R) : prog R :=
  match n with
  | O => mret slept
  | S n' =>
      t ← gets clock_tick;
      q ← lift (int_truediv t 1000);
      let secs := (0.05 * q)%R in
      lift (time_sleep secs);;
      progress_loop n' (slept + secs)%R
  end.

(** [step_proc_pb] for host [status_index], run with no other callback in
    between: flag up, a hundred steps, flag down. *)
Definition step_proc_pb (status_index : nat) : prog R :=
  step_proc_pb_begin status_index;;
  slept ← progress_loop 100 0;
  step_proc_pb_end status_index;;
  mret slept.



(** The commands of the buttons "Speed up" and "Slow down", lines 138 and
    145. *)
Definition speed_up : prog unit := change_clock_tick (-100).
Definition slow_down : prog unit := change_clock_tick 100.

(** ** The vocabulary of the statements *)

(** The logarithm to base 1/2. *)
Definition log_half (x : R) : R := (ln x / ln (1 / 2))%R.

(** [coefficient = (1/c)*t + log_{1/2}(v/c)], with [c] the number of clients
    in the queue, [t] the time spent in the queue and [v] the volume of the
    file, as lines 11-16 of the source state it. *)
Definition coefficient_formula (c t v : Z) : R :=
  (1 / IZR c * IZR t + log_half (IZR v / IZR c))%R.

(** What [insert_new_client] guarantees of a file list, and what every row
    of the queue keeps: at least one file, sizes in 1..1000, ascending. *)
Definition files_ok (files : list Z) : Prop :=
  files <> [] /\ Forall (fun v => 1 <= v <= 1000)%Z files /\ Sorted Z.le files.

(** The row line 225 writes, when the expression of lines 223-224 returns. *)
Definition refresh_row (c : Z) (cl : client) : client :=
  Client (cl_id cl) (cl_files cl) (cl_time cl + 1)
         (coefficient_formula c (cl_time cl + 1) (hd 0%Z (cl_files cl))).

(** Row [c] sits at position [k] of [l], no row has a greater coefficient,
    and every row before it has a smaller one. *)
Definition first_max (l : list client) (k : nat) (c : client) : Prop :=
  l !! k = Some c /\
  (forall j c', l !! j = Some c' -> (cl_coefficient c' <= cl_coefficient c)%R) /\
  (forall j c', (j < k)%nat -> l !! j = Some c' -> (cl_coefficient c' < cl_coefficient c)%R).

(** The states between two method calls: the counter is the length of the
    queue, every row has files as [insert_new_client] makes them, and ids grow
    along the queue and stay below the next id. *)
Record wf (s : AuctionIO) : Prop := {
  wf_count : num_clients s = Z.of_nat (length (clients_list s));
  wf_files : Forall (fun cl => files_ok (cl_files cl)) (clients_list s);
  wf_ids : StronglySorted Z.lt (cl_id <$> clients_list s);
  wf_next : Forall (fun cl => (cl_id cl < id s)%Z) (clients_list s)
}.

(** What [update] does to a state, by the four ways through its body. *)
Inductive tick (s : AuctionIO) : AuctionIO -> Prop :=
| tick_empty :
    clients_list s = [] ->
    tick s s
| tick_busy l k c :
    l = refresh_row (num_clients s) <$> clients_list s ->
    first_max l k c ->
    first_idle (status_list s) = None ->
    tick s (set_clients_list (fun _ => l) s)
| tick_last l k c v i :
    l = refresh_row (num_clients s) <$> clients_list s ->
    first_max l k c ->
    first_idle (status_list s) = Some i ->
    cl_files c = [v] ->
    tick s (App (num_clients s - 1) (id s) (clock_tick s) (delete k l)
                (status_list s) (threads s ++ [Thread i (cl_id c)]) (random s))
| tick_more l k c v v' rest i :
    l = refresh_row (num_clients s) <$> clients_list s ->
    first_max l k c ->
    first_idle (status_list s) = Some i ->
    cl_files c = v :: v' :: rest ->
    tick s (App (num_clients s) (id s) (clock_tick s)
                (<[k := Client (cl_id c) (v' :: rest) (cl_time c) (cl_coefficient c)]> l)
                (status_list s) (threads s ++ [Thread i (cl_id c)]) (random s)).

(** Every state the application can be in between two callbacks: after
    [__init__], after a click on a button, after a tick, and after a host
    thread has written a flag. *)
Inductive reachable : AuctionIO -> Prop :=
| reach_init g : reachable (init g)
| reach_insert s : reachable s -> reachable (insert_new_client s).1
| reach_update s : reachable s -> reachable (update s).1
| reach_clock s d : reachable s -> reachable (change_clock_tick d s).1
| reach_begin s i : reachable s -> reachable (step_proc_pb_begin i s).1
| reach_end s i : reachable s -> reachable (step_proc_pb_end i s).1.

(** The queue as the pairs (id, files) of its rows. *)
Definition queue_view (s : AuctionIO) : list (Z * list Z) :=
  (fun cl => (cl_id cl, cl_files cl)) <$> clients_list s.

(** Raw draws that make [randint(2, 11)] return 2 and the one file 1. *)
Definition draws_zero : rng := fun _ => 0%Z.

(** Raw draws that make [randint(2, 11)] return 2 and the one file 5. *)
Definition draws_five : rng := fun n => match n with O => 0%Z | S _ => 4%Z end.

(** The number of files still queued, over all rows. *)
Definition total_files (s : AuctionIO) : nat :=
  sum_list ((fun cl => length (cl_files cl)) <$> clients_list s).

(** The raw draws that make [insert_new_client] generate the files [files],
    in this order: the count first, then each size. *)
Definition draws_for (files : list Z) : rng :=
  fun n =>
    match n with
    | O => (Z.of_nat (length files) - 1)%Z
    | S m => (nth m files 1 - 1)%Z
    end.

(** What holds of the attributes besides [wf]: the tick interval keeps its
    floor, there are five hosts, ids start at 1, waiting times are not
    negative and do not grow along the queue, and every started thread is for
    one of the five hosts and for an id that was given out. *)
Record settled (s : AuctionIO) : Prop := {
  st_clock : (100 <= clock_tick s)%Z;
  st_hosts : length (status_list s) = 5%nat;
  st_id : (1 <= id s)%Z;
  st_ids : Forall (fun cl => (1 <= cl_id cl)%Z) (clients_list s);
  st_times : StronglySorted (fun a b => (b <= a)%Z) (cl_time <$> clients_list s);
  st_times0 : Forall (fun cl => (0 <= cl_time cl)%Z) (clients_list s);
  st_threads : Forall (fun t => (th_host t < 5)%nat /\ (1 <= th_client t < id s)%Z)
                      (threads s)
}.

(** ** Running programs *)

Lemma run_bind {A B} (m : prog A) (f : A -> prog B) (s : AuctionIO) :
  (m ≫= f) s =
  match m s with
  | (s', Ok a) => f a s'
  | (s', Raise e) => (s', Raise e)
  end.
Proof. reflexivity. Qed.

Lemma run_gets {A} (f : AuctionIO -> A) s : gets f s = (s, Ok (f s)).
Proof. reflexivity. Qed.

Lemma run_modify f s : modify f s = (f s, Ok tt).
Proof. reflexivity. Qed.

Lemma run_lift {A} (r : result A) s : lift r s = (s, r).
Proof. reflexivity. Qed.

Lemma run_ret {A} (a : A) (s : AuctionIO) : (mret a : prog A) s = (s, Ok a).
Proof. reflexivity. Qed.

Ltac run := repeat (rewrite ?run_bind, ?run_gets, ?run_modify, ?run_lift, ?run_ret; cbv beta iota).

(** ** Logarithms *)

Lemma ln_half_neg : (ln (1 / 2) < 0)%R.
Proof.
  replace (1 / 2)%R with (/ 2)%R by lra.
  rewrite ln_Rinv by lra.
  assert (H := ln_lt_2). lra.
Qed.

Lemma IZR_div_pos (v c : Z) : (0 < v * c)%Z -> (0 < IZR v / IZR c)%R.
Proof.
  intros H.
  assert (Hc : IZR c <> 0%R) by (apply not_0_IZR; nia).
  assert (H1 : (0 < IZR v * IZR c)%R) by (rewrite <- mult_IZR; apply IZR_lt; lia).
  replace (IZR v / IZR c)%R with (IZR v * IZR c * (/ IZR c * / IZR c))%R by (field; assumption).
  apply Rmult_lt_0_compat; [assumption|].
  assert (H2 : (/ IZR c <> 0)%R) by (apply Rinv_neq_0_compat; assumption).
  nra.
Qed.


(** ** The outcomes of the coefficient expression *)

Ltac decide_step :=
  match goal with
  | |- context [decide ?P] =>
      destruct (decide P); try lia; try lra; try contradiction; cbn
  end.

(** The expression returns exactly when [v * c] is positive, and then it is
    the formula. *)
Lemma coefficient_pos (c t v : Z) (rest : list Z) :
  (0 < v * c)%Z ->
  coefficient c t (v :: rest) = Ok (coefficient_formula c t v).
Proof.
  intros H. unfold coefficient, int_truediv, math_log, loghelper, float_truediv.
  assert (Hx := IZR_div_pos v c H).
  assert (Hh := ln_half_neg).
  repeat decide_step. reflexivity.
Qed.

Lemma coefficient_zero (t v : Z) (rest : list Z) :
  coefficient 0 t (v :: rest) = Raise ZeroDivisionError.
Proof. reflexivity. Qed.


(** ** Generating a client *)

Lemma randint_range (a b : Z) (g : rng) :
  (a <= b)%Z -> (a <= (randint a b g).1 <= b)%Z.
Proof.
  intros H. cbn. assert (0 <= g 0%nat mod (b - a + 1) < b - a + 1)%Z by (apply Z.mod_pos_bound; lia). lia.
Qed.

Lemma rand_run (a b : Z) (s : AuctionIO) :
  rand a b s = (set_random (randint a b (random s)).2 s, Ok (randint a b (random s)).1).
Proof. reflexivity. Qed.

Lemma draw_files_run (k : nat) (s : AuctionIO) :
  exists xs g,
    draw_files k s = (set_random g s, Ok xs) /\
    length xs = k /\ Forall (fun v => 1 <= v <= 1000)%Z xs.
Proof.
  revert s. induction k as [|k IH]; intros s.
  - exists [], (random s). destruct s; cbn. auto.
  - cbn [draw_files]. rewrite run_bind, rand_run.
    destruct (IH (set_random (randint 1 1000 (random s)).2 s)) as (xs & g & Hrun & Hlen & Hall).
    rewrite run_bind, Hrun, run_ret.
    eexists (_ :: xs), g. split; [reflexivity|]. split; [cbn; lia|].
    constructor; [|assumption].
    apply (randint_range 1 1000); lia.
Qed.

Lemma sort_sorted (l : list Z) : Sorted Z.le (ZSort.sort l).
Proof.
  assert (H := ZSort.Sorted_sort l).
  induction H as [|x l' Hs IH Hhd]; constructor; [assumption|].
  destruct Hhd as [|y l'' Hxy]; constructor.
  apply Z.leb_le. exact Hxy.
Qed.

Lemma sort_files_ok (l : list Z) :
  l <> [] -> Forall (fun v => 1 <= v <= 1000)%Z l -> files_ok (ZSort.sort l).
Proof.
  intros Hne Hall. assert (Hp := ZSort.Permuted_sort l).
  split; [|split].
  - intros Hnil. rewrite Hnil in Hp. apply Permutation_nil_r in Hp. contradiction.
  - eapply Permutation_Forall; eassumption.
  - apply sort_sorted.
Qed.

(** The whole of [insert_new_client] on a state whose counter is not
    negative: it returns, and the new row is appended with time 0 and the
    formula at the incremented counter. *)
Lemma insert_new_client_run (s : AuctionIO) :
  (0 <= num_clients s)%Z ->
  exists v rest g,
    files_ok (v :: rest) /\ (length (v :: rest) <= 10)%nat /\
    insert_new_client s =
      (App (num_clients s + 1) (id s + 1) (clock_tick s)
           (clients_list s ++
              [Client (id s) (v :: rest) 0
                      (coefficient_formula (num_clients s + 1) 0 v)])
           (status_list s) (threads s) g, Ok tt).
Proof.
  intros Hc. unfold insert_new_client.
  rewrite run_bind, run_modify, run_bind, rand_run.
  set (s1 := set_random _ _).
  set (n := (randint 2 11 _).1).
  assert (Hn : (2 <= n <= 11)%Z) by (apply randint_range; lia).
  destruct (draw_files_run (range_len n) s1) as (xs & g & Hrun & Hlen & Hall).
  rewrite run_bind, Hrun.
  assert (Hne : xs <> []).
  { intros ->. unfold range_len in Hlen. clearbody n. cbn in Hlen. lia. }
  destruct (sort_files_ok xs Hne Hall) as (Hne' & Hall' & Hsorted).
  assert (Hlen' : length (ZSort.sort xs) = length xs)
    by (symmetry; apply Permutation_length, ZSort.Permuted_sort).
  destruct (ZSort.sort xs) as [|v rest] eqn:Hsort; [contradiction|].
  exists v, rest, g. split; [repeat split; assumption|].
  split; [rewrite Hlen', Hlen; unfold range_len; lia|].
  run. cbn [num_clients set_random s1 set_num_clients].
  rewrite coefficient_pos.
  2:{ apply Forall_cons in Hall' as [Hv _]. nia. }
  run. reflexivity.
Qed.

(** ** The refresh loop of a tick *)

Lemma set_clients_list_twice (f : list client -> list client) (l : list client) (s : AuctionIO) :
  set_clients_list (fun _ => l) (set_clients_list f s) = set_clients_list (fun _ => l) s.
Proof. reflexivity. Qed.

Lemma refresh_loop_run (todo done : list client) (s : AuctionIO) :
  clients_list s = done ++ todo ->
  (1 <= num_clients s)%Z ->
  Forall (fun cl => files_ok (cl_files cl)) todo ->
  refresh_loop (length todo) (length done) s =
    (set_clients_list (fun _ => done ++ (refresh_row (num_clients s) <$> todo)) s, Ok tt).
Proof.
  revert done s. induction todo as [|cl todo IH]; intros done s Hl Hc Hall.
  - cbn [length refresh_loop fmap list_fmap]. run.
    destruct s; cbn in *; subst; reflexivity.
  - apply Forall_cons in Hall as [(Hne & Hrange & _) Hall].
    destruct (cl_files cl) as [|v rest] eqn:Hfiles; [contradiction|].
    apply Forall_cons in Hrange as [Hv _].
    cbn [length refresh_loop]. run.
    rewrite Hl. unfold getitem. rewrite list_lookup_middle by reflexivity. run.
    rewrite Hfiles, coefficient_pos by nia. run.
    replace (S (length done)) with (length (done ++ [refresh_row (num_clients s) cl]))
      by (rewrite length_app; cbn; lia).
    rewrite IH.
    + rewrite set_clients_list_twice. cbn [num_clients set_clients_list].
      rewrite <- app_assoc. reflexivity.
    + cbn [clients_list set_clients_list]. rewrite Hl.
      rewrite insert_app_r_alt, Nat.sub_diag by lia. cbn [insert list_insert].
      rewrite <- app_assoc. unfold refresh_row. rewrite Hfiles. reflexivity.
    + assumption.
    + assumption.
Qed.

(** ** Selection of the row to serve *)

Lemma foldl_max_spec (l : list R) (x : R) :
  let m := foldl (fun m y => if decide (y > m)%R then y else m) x l in
  (m = x \/ m ∈ l) /\ (x <= m)%R /\ Forall (fun y => (y <= m)%R) l.
Proof.
  revert x. induction l as [|y l IH]; intros x; cbn.
  - split; [left; reflexivity|]. split; [lra|constructor].
  - destruct (decide (y > x)%R) as [Hgt|Hle].
    + destruct (IH y) as ([->|Hin] & Hle' & Hall).
      * split; [right; left|]. split; [lra|]. constructor; [lra|assumption].
      * split; [right; right; assumption|]. split; [lra|]. constructor; assumption.
    + destruct (IH x) as ([->|Hin] & Hle' & Hall).
      * split; [left; reflexivity|]. split; [lra|]. constructor; [lra|assumption].
      * split; [right; right; assumption|]. split; [lra|]. constructor; [lra|assumption].
Qed.

Lemma py_max_spec (l : list R) :
  l <> [] -> exists m, py_max l = Ok m /\ m ∈ l /\ Forall (fun y => (y <= m)%R) l.
Proof.
  destruct l as [|x l]; [contradiction|]. intros _.
  destruct (foldl_max_spec l x) as (Hin & Hle & Hall).
  eexists. split; [reflexivity|]. split.
  - destruct Hin as [->|Hin]; [left|right; assumption].
  - constructor; assumption.
Qed.

Lemma select_max_run (l : list client) :
  l <> [] -> exists k c, select_max l = Ok (Some k) /\ first_max l k c.
Proof.
  intros Hne. unfold select_max.
  destruct (decide (l = [])) as [|_]; [contradiction|].
  destruct (py_max_spec (cl_coefficient <$> l)) as (m & -> & Hin & Hall).
  { intros H. apply fmap_nil_inv in H. contradiction. }
  cbn. unfold py_index.
  destruct (list_find (fun y => y = m) (cl_coefficient <$> l)) as [[k y]|] eqn:Hfind.
  - apply list_find_Some in Hfind as (Hk & -> & Hbefore).
    rewrite list_lookup_fmap in Hk.
    destruct (l !! k) as [c|] eqn:Hc; [|discriminate].
    injection Hk as Hk. cbn. unfold getitem. rewrite Hc. cbn.
    exists k, c. split; [reflexivity|]. split; [assumption|].
    assert (Hle : forall j c', l !! j = Some c' -> (cl_coefficient c' <= cl_coefficient c)%R).
    { intros j c' Hj. rewrite Forall_forall in Hall. rewrite Hk. apply Hall.
      apply list_elem_of_fmap. exists c'. split; [reflexivity|].
      eapply list_elem_of_lookup_2; eassumption. }
    split; [exact Hle|].
    intros j c' Hjk Hj. specialize (Hle j c' Hj).
    assert (cl_coefficient c' <> cl_coefficient c).
    { rewrite Hk. apply (Hbefore j); [|assumption]. rewrite list_lookup_fmap, Hj. reflexivity. }
    lra.
  - apply list_find_None in Hfind. rewrite Forall_forall in Hfind.
    exfalso. apply (Hfind m); [assumption|reflexivity].
Qed.

Lemma select_max_nil : select_max [] = Ok None.
Proof. reflexivity. Qed.

(** [l.index(row)] for a row that sits at [k] and differs from every row
    before it. *)
Lemma py_index_at (l : list client) (k : nat) (c : client) :
  l !! k = Some c ->
  (forall j c', (j < k)%nat -> l !! j = Some c' -> c' <> c) ->
  py_index c l = Ok k.
Proof.
  intros Hk Hbefore. unfold py_index.
  assert (H : list_find (fun y => y = c) l = Some (k, c)).
  { apply list_find_Some. split; [assumption|]. split; [reflexivity|].
    intros j y Hj Hjk. apply (Hbefore j); assumption. }
  rewrite H. reflexivity.
Qed.

(** ** Serving the selected row *)

Lemma first_max_lookup l k c : first_max l k c -> l !! k = Some c.
Proof. intros (H & _). exact H. Qed.

Lemma first_max_before l k c j c' :
  first_max l k c -> (j < k)%nat -> l !! j = Some c' ->
  cl_coefficient c' <> cl_coefficient c.
Proof.
  intros (_ & _ & H) Hjk Hj. specialize (H j c' Hjk Hj). lra.
Qed.

(** After line 241 the row at [k] has lost its first file; [index] still
    finds it at [k], since the rows before it have other coefficients. *)
Lemma py_index_after_del l k c :
  first_max l k c ->
  py_index (set_files (drop 1) c) (<[k := set_files (drop 1) c]> l) = Ok k.
Proof.
  intros Hmax. assert (Hk := first_max_lookup _ _ _ Hmax).
  apply py_index_at.
  - apply list_lookup_insert_eq. eapply lookup_lt_Some; eassumption.
  - intros j c' Hjk Hj Heq. rewrite list_lookup_insert_ne in Hj by lia.
    apply (first_max_before _ _ _ _ _ Hmax Hjk Hj). subst c'. reflexivity.
Qed.

Lemma delete_insert_same {A} (l : list A) (k : nat) (x : A) :
  delete k (<[k := x]> l) = delete k l.
Proof.
  revert k. induction l as [|y l IH]; intros [|k]; cbn; try reflexivity.
  f_equal. apply IH.
Qed.

(** The last file of the row goes: the row leaves the queue and the counter
    goes down. *)
Lemma serve_last (i k : nat) (c : client) (v : Z) (s : AuctionIO) :
  first_max (clients_list s) k c ->
  cl_files c = [v] ->
  serve i k s =
    (App (num_clients s - 1) (id s) (clock_tick s) (delete k (clients_list s))
         (status_list s) (threads s ++ [Thread i (cl_id c)]) (random s), Ok tt).
Proof.
  intros Hmax Hfiles. assert (Hk := first_max_lookup _ _ _ Hmax).
  assert (Hlt : (k < length (clients_list s))%nat) by (eapply lookup_lt_Some; eassumption).
  unfold serve. run. unfold getitem at 1. rewrite Hk. run.
  cbn [clients_list set_threads].
  rewrite py_index_at with (k := k); [|assumption|].
  2:{ intros j c' Hjk Hj ->. eapply first_max_before; eauto. }
  run. unfold getitem at 1. rewrite Hk. run.
  rewrite Hfiles. unfold getitem at 1. cbn [lookup list_lookup]. run.
  cbn [clients_list set_clients_list].
  unfold getitem at 1. rewrite list_lookup_insert_eq by assumption. run.
  rewrite py_index_after_del by assumption. run.
  unfold getitem at 1. rewrite list_lookup_insert_eq by assumption. run.
  destruct (decide (length (cl_files (set_files (drop 1) c)) = 0%nat)) as [_|Hn].
  2:{ exfalso. apply Hn. cbn. rewrite Hfiles. reflexivity. }
  run. unfold getitem. rewrite list_lookup_insert_eq by assumption. run.
  unfold set_clients_list, set_num_clients, set_threads; cbn.
  rewrite delete_insert_same. reflexivity.
Qed.

(** More files remain: the row stays at [k] with its first file removed. *)
Lemma serve_more (i k : nat) (c : client) (v v' : Z) (rest : list Z) (s : AuctionIO) :
  first_max (clients_list s) k c ->
  cl_files c = v :: v' :: rest ->
  serve i k s =
    (App (num_clients s) (id s) (clock_tick s)
         (<[k := Client (cl_id c) (v' :: rest) (cl_time c) (cl_coefficient c)]> (clients_list s))
         (status_list s) (threads s ++ [Thread i (cl_id c)]) (random s), Ok tt).
Proof.
  intros Hmax Hfiles. assert (Hk := first_max_lookup _ _ _ Hmax).
  assert (Hlt : (k < length (clients_list s))%nat) by (eapply lookup_lt_Some; eassumption).
  unfold serve. run. unfold getitem at 1. rewrite Hk. run.
  cbn [clients_list set_threads].
  rewrite py_index_at with (k := k); [|assumption|].
  2:{ intros j c' Hjk Hj ->. eapply first_max_before; eauto. }
  run. unfold getitem at 1. rewrite Hk. run.
  rewrite Hfiles. unfold getitem at 1. cbn [lookup list_lookup]. run.
  cbn [clients_list set_clients_list].
  unfold getitem at 1. rewrite list_lookup_insert_eq by assumption. run.
  rewrite py_index_after_del by assumption. run.
  unfold getitem at 1. rewrite list_lookup_insert_eq by assumption. run.
  destruct (decide (length (cl_files (set_files (drop 1) c)) = 0%nat)) as [Hn|_].
  { exfalso. cbn in Hn. rewrite Hfiles in Hn. discriminate. }
  run. unfold set_files, set_clients_list, set_threads; cbn.
  rewrite Hfiles. reflexivity.
Qed.

(** ** One tick, case by case *)

Lemma refresh_row_files c cl : cl_files (refresh_row c cl) = cl_files cl.
Proof. reflexivity. Qed.

Lemma refresh_row_id c cl : cl_id (refresh_row c cl) = cl_id cl.
Proof. reflexivity. Qed.

Lemma Forall_refresh (P : client -> Prop) (c : Z) (l : list client) :
  (forall cl, P cl -> P (refresh_row c cl)) ->
  Forall P l -> Forall P (refresh_row c <$> l).
Proof.
  intros HP H. induction H; cbn; constructor; auto.
Qed.

Lemma update_tick (s : AuctionIO) :
  wf s -> exists s', update s = (s', Ok tt) /\ tick s s'.
Proof.
  intros [Hcount Hfiles _ _]. unfold update. run.
  destruct (clients_list s) as [|cl0 l0] eqn:Hl.
  { cbn [length refresh_loop]. run. rewrite Hl, select_max_nil. run.
    exists s. split; [reflexivity|]. apply tick_empty. assumption. }
  rewrite <- Hl in *.
  assert (Hc : (1 <= num_clients s)%Z) by (rewrite Hcount, Hl; cbn; lia).
  change 0%nat with (length (@nil client)).
  rewrite (refresh_loop_run (clients_list s) [] s) by (reflexivity || assumption).
  cbn [app]. set (l := refresh_row (num_clients s) <$> clients_list s).
  run. cbn [clients_list set_clients_list].
  destruct (select_max_run l) as (k & c & -> & Hmax).
  { unfold l. rewrite Hl. discriminate. }
  run. cbn [status_list set_clients_list].
  destruct (first_idle (status_list s)) as [i|] eqn:Hidle.
  2:{ run. eexists. split; [reflexivity|]. eapply tick_busy; eauto. }
  assert (Hok : files_ok (cl_files c)).
  { assert (Hall : Forall (fun cl => files_ok (cl_files cl)) l)
      by (apply Forall_refresh; auto).
    rewrite Forall_forall in Hall. apply Hall.
    eapply list_elem_of_lookup_2, first_max_lookup; eassumption. }
  destruct (cl_files c) as [|v [|v' rest]] eqn:Hc_files.
  - destruct Hok as (Hne & _). contradiction.
  - rewrite (serve_last i k c v (set_clients_list (fun _ => l) s)) by assumption.
    cbn [num_clients id clock_tick clients_list status_list threads random set_clients_list].
    eexists. split; [reflexivity|]. eapply tick_last; eauto.
  - rewrite (serve_more i k c v v' rest (set_clients_list (fun _ => l) s)) by assumption.
    cbn [num_clients id clock_tick clients_list status_list threads random set_clients_list].
    eexists. split; [reflexivity|]. eapply tick_more; eauto.
Qed.

(** ** The invariant *)

Lemma StronglySorted_delete {A} (R : relation A) (l : list A) (i : nat) :
  StronglySorted R l -> StronglySorted R (delete i l).
Proof.
  intros H. revert i. induction H as [|x l Hs IH Hall]; intros [|i]; cbn.
  - constructor.
  - constructor.
  - assumption.
  - constructor; [apply IH|apply Forall_delete; assumption].
Qed.

Lemma fmap_id_refresh (c : Z) (l : list client) :
  cl_id <$> (refresh_row c <$> l) = cl_id <$> l.
Proof.
  induction l as [|x l IH]; cbn; [reflexivity|]. f_equal. apply IH.
Qed.

Lemma files_ok_tail (v v' : Z) (rest : list Z) :
  files_ok (v :: v' :: rest) -> files_ok (v' :: rest).
Proof.
  intros (_ & Hrange & Hsorted). split; [discriminate|]. split.
  - apply Forall_cons in Hrange as [_ H]. exact H.
  - apply Sorted_inv in Hsorted as [H _]. exact H.
Qed.

Lemma wf_init (g : rng) : wf (init g).
Proof.
  split; cbn; constructor.
Qed.

Lemma wf_insert (s : AuctionIO) : wf s -> wf (insert_new_client s).1.
Proof.
  intros [Hcount Hfiles Hids Hnext].
  destruct (insert_new_client_run s) as (v & rest & g & Hok & _ & ->); [lia|].
  split; cbn [fst num_clients id clients_list].
  - rewrite length_app. cbn. lia.
  - apply Forall_app. split; [assumption|]. constructor; [assumption|constructor].
  - rewrite fmap_app. apply StronglySorted_app_2.
    + intros x1 x2 Hx1 Hx2. cbn in Hx2. apply list_elem_of_singleton in Hx2 as ->.
      apply list_elem_of_fmap in Hx1 as (cl & -> & Hcl).
      rewrite Forall_forall in Hnext. apply Hnext. assumption.
    + assumption.
    + cbn. repeat constructor.
  - apply Forall_app. split.
    + eapply Forall_impl; [eassumption|]. cbn. intros; lia.
    + constructor; [cbn; lia|constructor].
Qed.

Lemma wf_tick (s s' : AuctionIO) : wf s -> tick s s' -> wf s'.
Proof.
  intros Hwf Htick. assert (Hwf' := Hwf). destruct Hwf' as [Hcount Hfiles Hids Hnext].
  assert (Hfiles' : Forall (fun cl => files_ok (cl_files cl))
                      (refresh_row (num_clients s) <$> clients_list s))
    by (apply Forall_refresh; auto).
  assert (Hnext' : Forall (fun cl => (cl_id cl < id s)%Z)
                      (refresh_row (num_clients s) <$> clients_list s))
    by (apply Forall_refresh; auto).
  destruct Htick as [Hnil | l k c Hl Hmax Hidle | l k c v i Hl Hmax Hidle Hc
                    | l k c v v' rest i Hl Hmax Hidle Hc]; [assumption| | |];
    assert (Hk := first_max_lookup _ _ _ Hmax); subst l.
  - split; cbn [num_clients id clients_list set_clients_list].
    + rewrite length_fmap. assumption.
    + assumption.
    + rewrite fmap_id_refresh. assumption.
    + assumption.
  - split; cbn [num_clients id clients_list].
    + rewrite length_delete by (eexists; eassumption).
      rewrite length_fmap.
      apply lookup_lt_Some in Hk. rewrite length_fmap in Hk. lia.
    + apply Forall_delete. assumption.
    + rewrite list_fmap_delete, fmap_id_refresh. apply StronglySorted_delete. assumption.
    + apply Forall_delete. assumption.
  - assert (Hokc : files_ok (cl_files c)) by (eapply Forall_lookup_1 in Hfiles'; eauto).
    assert (Hidc : (cl_id c < id s)%Z) by (eapply Forall_lookup_1 in Hnext'; eauto).
    split; cbn [num_clients id clients_list].
    + rewrite length_insert, length_fmap. assumption.
    + apply Forall_insert; [assumption|]. cbn. rewrite Hc in Hokc.
      eapply files_ok_tail; eassumption.
    + rewrite list_fmap_insert. cbn [cl_id].
      rewrite list_insert_id.
      * rewrite fmap_id_refresh. assumption.
      * rewrite list_lookup_fmap, Hk. reflexivity.
    + apply Forall_insert; assumption.
Qed.

Lemma wf_update (s : AuctionIO) : wf s -> wf (update s).1.
Proof.
  intros Hwf. destruct (update_tick s Hwf) as (s' & -> & Htick).
  eapply wf_tick; eassumption.
Qed.

Lemma wf_frame (s s' : AuctionIO) :
  num_clients s' = num_clients s -> id s' = id s ->
  clients_list s' = clients_list s -> wf s -> wf s'.
Proof.
  intros H1 H2 H3 [Hcount Hfiles Hids Hnext].
  split; rewrite ?H1, ?H2, ?H3; assumption.
Qed.

Lemma reachable_wf (s : AuctionIO) : reachable s -> wf s.
Proof.
  induction 1 as [g | s _ IH | s _ IH | s d _ IH | s i _ IH | s i _ IH].
  - apply wf_init.
  - apply wf_insert; assumption.
  - apply wf_update; assumption.
  - eapply wf_frame; [| | |exact IH]; unfold change_clock_tick; run;
      cbn [set_clock_tick clock_tick]; destruct (decide _); reflexivity.
  - eapply wf_frame; [| | |exact IH]; unfold step_proc_pb_begin, getitem; run;
      destruct (status_list s !! i); reflexivity.
  - eapply wf_frame; [| | |exact IH]; unfold step_proc_pb_end, getitem; run;
      destruct (status_list s !! i); reflexivity.
Qed.

(** ** Insertion under given draws *)

Lemma sorted_head_least (v : Z) (rest : list Z) :
  Sorted Z.le (v :: rest) -> Forall (Z.le v) rest.
Proof.
  intros H. apply Sorted_StronglySorted in H.
  - apply StronglySorted_inv in H as [_ H]. exact H.
  - intros x y z; apply Z.le_trans.
Qed.

(** [insert_new_client] when the draws give one file [v]. *)
Lemma insert_one_file (s : AuctionIO) (v : Z) :
  (0 <= num_clients s)%Z ->
  (random s 0%nat mod 10 = 0)%Z ->
  (random s 1%nat mod 1000 = v - 1)%Z ->
  insert_new_client s =
    (App (num_clients s + 1) (id s + 1) (clock_tick s)
         (clients_list s ++ [Client (id s) [v] 0 (coefficient_formula (num_clients s + 1) 0 v)])
         (status_list s) (threads s) (fun n => random s (S (S n))), Ok tt).
Proof.
  intros Hc H0 H1. unfold insert_new_client.
  rewrite run_bind, run_modify, run_bind, rand_run.
  unfold randint; cbn [fst snd set_random random set_num_clients].
  change (11 - 2 + 1)%Z with 10%Z. rewrite H0.
  change (range_len (2 + 0)) with 1%nat.
  cbn [draw_files]. rewrite !run_bind, rand_run.
  unfold randint; cbn [fst snd set_random random set_num_clients].
  change (1000 - 1 + 1)%Z with 1000%Z. rewrite H1.
  assert (Hv1 : (1 + (v - 1))%Z = v) by lia. run. rewrite Hv1.
  change (ZSort.sort [v]) with [v].
  cbn [num_clients set_random set_num_clients].
  assert (Hv : (0 <= v - 1 < 1000)%Z) by (rewrite <- H1; apply Z.mod_pos_bound; lia).
  rewrite coefficient_pos by (apply Z.mul_pos_pos; lia). run. reflexivity.
Qed.

(** ** The value of [log_half 5] *)

Lemma ln_half : ln (1 / 2) = (- ln 2)%R.
Proof.
  replace (1 / 2)%R with (/ 2)%R by lra. apply ln_Rinv. lra.
Qed.

Lemma log_half_log2 (x : R) : log_half x = (- (ln x / ln 2))%R.
Proof.
  unfold log_half. rewrite ln_half. assert (H := ln_lt_2). field. lra.
Qed.

Lemma pow_lt_ln (a b : Z) (n m : nat) :
  (1 < a)%Z -> (1 < b)%Z -> (a ^ Z.of_nat n < b ^ Z.of_nat m)%Z ->
  (INR n * ln (IZR a) < INR m * ln (IZR b))%R.
Proof.
  intros Ha Hb H.
  assert (Ha' : (0 < IZR a)%R) by (apply IZR_lt; lia).
  assert (Hb' : (0 < IZR b)%R) by (apply IZR_lt; lia).
  rewrite <- !ln_pow by assumption.
  apply ln_increasing; [apply pow_lt; assumption|].
  rewrite !pow_IZR. apply IZR_lt. assumption.
Qed.

(** [2^339 < 5^146] and [5^643 < 2^1493] enclose [log2 5] between two of its
    convergents, hence [log_half 5] within a ten-thousandth of -2.3219. *)
Lemma log_half_5_bounds : (-2.3220 < log_half 5 < -2.3218)%R.
Proof.
  assert (Hlo : (INR 339 * ln 2 < INR 146 * ln 5)%R).
  { apply (pow_lt_ln 2 5); [lia|lia|]. apply Z.ltb_lt. vm_compute. reflexivity. }
  assert (Hhi : (INR 643 * ln 5 < INR 1493 * ln 2)%R).
  { apply (pow_lt_ln 5 2); [lia|lia|]. apply Z.ltb_lt. vm_compute. reflexivity. }
  rewrite (INR_IZR_INZ 339 : INR 339 = 339%R) in Hlo.
  rewrite (INR_IZR_INZ 146 : INR 146 = 146%R) in Hlo.
  rewrite (INR_IZR_INZ 643 : INR 643 = 643%R) in Hhi.
  rewrite (INR_IZR_INZ 1493 : INR 1493 = 1493%R) in Hhi.
  rewrite log_half_log2.
  assert (Hb := ln_lt_2).
  set (q := (ln 5 / ln 2)%R).
  assert (Hq : ln 5 = (q * ln 2)%R) by (unfold q; field; lra).
  rewrite Hq in Hlo, Hhi.
  assert (H1 : (339 < 146 * q)%R) by nra.
  assert (H2 : (643 * q < 1493)%R) by nra.
  split; lra.
Qed.

(** ** Properties of insertion and of the coefficient expression *)

Lemma reachable_count_nonneg (s : AuctionIO) : reachable s -> (0 <= num_clients s)%Z.
Proof.
  intros H. apply reachable_wf in H. destruct H as [Hcount _ _ _]. lia.
Qed.

Lemma log_half_inj (x y : R) :
  (0 < x)%R -> (0 < y)%R -> log_half x = log_half y -> x = y.
Proof.
  intros Hx Hy H. apply ln_inv; [assumption|assumption|].
  rewrite !log_half_log2 in H. assert (Hb := ln_lt_2).
  assert (H' : (ln x / ln 2 = ln y / ln 2)%R) by lra.
  apply (Rmult_eq_compat_r (ln 2)) in H'.
  unfold Rdiv in H'. rewrite !Rmult_assoc, !Rinv_l, !Rmult_1_r in H' by lra.
  exact H'.
Qed.

Lemma formula_divisor_neq (k v : Z) :
  (1 <= k)%Z -> (1 <= v)%Z ->
  coefficient_formula k 0 v <> coefficient_formula (k + 1) 0 v.
Proof.
  intros Hk Hv H. unfold coefficient_formula in H.
  rewrite !Rmult_0_r, !Rplus_0_l in H.
  apply log_half_inj in H.
  - assert (Hk' : (1 <= IZR k)%R) by (apply IZR_le; assumption).
    assert (Hv' : (1 <= IZR v)%R) by (apply IZR_le; assumption).
    rewrite plus_IZR in H.
    apply (Rmult_eq_compat_r (IZR k * (IZR k + 1))) in H.
    field_simplify in H; [|lra|lra]. nra.
  - apply IZR_div_pos. apply Z.mul_pos_pos; lia.
  - apply IZR_div_pos. apply Z.mul_pos_pos; lia.
Qed.

(** C3, as amended: a new client is given between 1 and 10 files, each an
    integer from 1 to 1000, and the file list is in ascending order when the
    row enters the queue. *)
Theorem insert_new_client_files (s : AuctionIO) :
  reachable s ->
  exists cl,
    (insert_new_client s).2 = Ok tt /\
    clients_list (insert_new_client s).1 = clients_list s ++ [cl] /\
    (1 <= length (cl_files cl) <= 10)%nat /\
    Forall (fun v => 1 <= v <= 1000)%Z (cl_files cl) /\
    Sorted Z.le (cl_files cl).
Proof.
  intros Hs.
  destruct (insert_new_client_run s (reachable_count_nonneg s Hs))
    as (v & rest & g & (Hne & Hrange & Hsorted) & Hlen & ->).
  eexists. cbn [fst snd clients_list cl_files].
  split; [reflexivity|]. split; [reflexivity|].
  split; [cbn in *; lia|]. split; assumption.
Qed.

Lemma insert_new_client_files_witness :
  reachable (init draws_zero) /\
  exists cl,
    (insert_new_client (init draws_zero)).2 = Ok tt /\
    clients_list (insert_new_client (init draws_zero)).1 =
      clients_list (init draws_zero) ++ [cl] /\
    (1 <= length (cl_files cl) <= 10)%nat /\
    Forall (fun v => 1 <= v <= 1000)%Z (cl_files cl) /\
    Sorted Z.le (cl_files cl).
Proof.
  split; [apply reach_init|].
  apply (insert_new_client_files (init draws_zero)). apply reach_init.
Defined.

(** C3, as stated, fails: when [randint(2, 11)] returns 2 the range
    [range(1, 2)] has one item, and the client enters the queue with a single
    file, fewer than the two the claim promises. *)
Lemma insert_new_client_single_file :
  exists cl,
    clients_list (insert_new_client (init draws_zero)).1 = [cl] /\
    cl_files cl = [1%Z] /\
    ~ (2 <= length (cl_files cl) <= 10)%nat.
Proof.
  rewrite (insert_one_file (init draws_zero) 1) by (cbn; lia || reflexivity).
  eexists. split; [reflexivity|]. split; [reflexivity|]. cbn. lia.
Qed.

(** C10: the coefficient of a client inserted into a queue of [k] clients is
    computed after the counter has been raised, with divisor [k + 1]; the
    expression with divisor [k] does not give the stored coefficient. *)
Theorem insert_divisor_counts_new_client (s : AuctionIO) :
  reachable s ->
  exists cl v rest,
    clients_list (insert_new_client s).1 = clients_list s ++ [cl] /\
    cl_files cl = v :: rest /\
    coefficient (Z.of_nat (length (clients_list s)) + 1) 0 (cl_files cl)
      = Ok (cl_coefficient cl) /\
    cl_coefficient cl
      = coefficient_formula (Z.of_nat (length (clients_list s)) + 1) 0 v /\
    coefficient (Z.of_nat (length (clients_list s))) 0 (cl_files cl)
      <> Ok (cl_coefficient cl).
Proof.
  intros Hs. assert (Hwf := reachable_wf s Hs). destruct Hwf as [Hcount _ _ _].
  destruct (insert_new_client_run s (reachable_count_nonneg s Hs))
    as (v & rest & g & (Hne & Hrange & Hsorted) & Hlen & ->).
  apply Forall_cons in Hrange as [Hv _].
  rewrite <- Hcount.
  eexists _, v, rest. cbn [fst clients_list cl_files cl_coefficient].
  split; [reflexivity|]. split; [reflexivity|].
  cbn [cl_files cl_coefficient].
  split; [apply coefficient_pos; nia|]. split; [reflexivity|].
  destruct (decide (num_clients s = 0%Z)) as [->|Hk].
  - rewrite coefficient_zero. discriminate.
  - rewrite coefficient_pos by nia. intros H. injection H as H.
    revert H. apply formula_divisor_neq; lia.
Qed.

Lemma insert_divisor_counts_new_client_witness :
  reachable (init draws_five) /\
  exists cl v rest,
    clients_list (insert_new_client (init draws_five)).1
      = clients_list (init draws_five) ++ [cl] /\
    cl_files cl = v :: rest /\
    coefficient (Z.of_nat (length (clients_list (init draws_five))) + 1) 0 (cl_files cl)
      = Ok (cl_coefficient cl) /\
    cl_coefficient cl
      = coefficient_formula (Z.of_nat (length (clients_list (init draws_five))) + 1) 0 v /\
    coefficient (Z.of_nat (length (clients_list (init draws_five)))) 0 (cl_files cl)
      <> Ok (cl_coefficient cl).
Proof.
  split; [apply reach_init|].
  apply (insert_divisor_counts_new_client (init draws_five)). apply reach_init.
Defined.

(** C9: after every insertion and after every tick the counter
    [num_clients] is the number of rows of [clients_list]; both methods
    return without raising. *)
Theorem num_clients_is_queue_length (s : AuctionIO) :
  reachable s ->
  num_clients s = Z.of_nat (length (clients_list s)) /\
  ((insert_new_client s).2 = Ok tt /\
   length (clients_list (insert_new_client s).1) = S (length (clients_list s)) /\
   num_clients (insert_new_client s).1
     = Z.of_nat (length (clients_list (insert_new_client s).1))) /\
  ((update s).2 = Ok tt /\
   num_clients (update s).1 = Z.of_nat (length (clients_list (update s).1))).
Proof.
  intros Hs. assert (Hwf := reachable_wf s Hs).
  split; [apply Hwf|]. split.
  - assert (Hwf' := wf_insert s Hwf).
    destruct (insert_new_client_run s (reachable_count_nonneg s Hs))
      as (v & rest & g & _ & _ & Hrun).
    rewrite Hrun in *. cbn [fst snd] in *.
    split; [reflexivity|]. split; [|apply Hwf'].
    cbn [clients_list]. rewrite length_app. cbn. lia.
  - assert (Hwf' := wf_update s Hwf).
    destruct (update_tick s Hwf) as (s' & Hrun & _).
    rewrite Hrun in *. cbn [fst snd] in *.
    split; [reflexivity|apply Hwf'].
Qed.

Lemma num_clients_is_queue_length_witness :
  reachable (insert_new_client (init draws_five)).1 /\
  num_clients (insert_new_client (init draws_five)).1 = 1%Z /\
  length (clients_list (insert_new_client (init draws_five)).1) = 1%nat.
Proof.
  assert (Hr : reachable (insert_new_client (init draws_five)).1)
    by (apply reach_insert, reach_init).
  split; [exact Hr|].
  destruct (num_clients_is_queue_length _ Hr) as (Hcount & _).
  rewrite Hcount.
  rewrite (insert_one_file (init draws_five) 5) by (cbn; lia || reflexivity).
  split; reflexivity.
Defined.

(** ** Properties of selection and dispatch *)

Lemma first_idle_Some (hosts : list bool) (i : nat) :
  first_idle hosts = Some i <->
  hosts !! i = Some false /\ (forall j, (j < i)%nat -> hosts !! j = Some true).
Proof.
  unfold first_idle. split.
  - destruct (list_find _ hosts) as [[i' b]|] eqn:Hfind; [|discriminate].
    cbn. intros [= ->]. apply list_find_Some in Hfind as (Hi & -> & Hbefore).
    split; [assumption|]. intros j Hj.
    destruct (lookup_lt_is_Some_2 hosts j) as [b Hb].
    { apply lookup_lt_Some in Hi. lia. }
    rewrite Hb. f_equal. specialize (Hbefore j b Hb Hj). destruct b; congruence.
  - intros (Hi & Hbefore).
    assert (H : list_find (fun b => b = false) hosts = Some (i, false)).
    { apply list_find_Some. split; [assumption|]. split; [reflexivity|].
      intros j y Hj Hji. rewrite (Hbefore j Hji) in Hj. congruence. }
    rewrite H. reflexivity.
Qed.

Lemma sorted_lookup_lt (l : list Z) (i j : nat) (x y : Z) :
  StronglySorted Z.lt l -> (i < j)%nat ->
  l !! i = Some x -> l !! j = Some y -> (x < y)%Z.
Proof.
  intros H. revert i j. induction H as [|a l Hs IH Hall]; intros i j Hij Hi Hj.
  - discriminate.
  - destruct j as [|j]; [lia|]. destruct i as [|i]; cbn in Hi, Hj.
    + injection Hi as ->. rewrite Forall_forall in Hall. apply Hall.
      eapply list_elem_of_lookup_2; eassumption.
    + apply (IH i j); [lia|assumption|assumption].
Qed.

Lemma select_max_same_coefficients (l l' : list client) :
  cl_coefficient <$> l' = cl_coefficient <$> l -> select_max l' = select_max l.
Proof.
  intros Heq. unfold select_max.
  assert (Hlen : length l' = length l).
  { apply (f_equal length) in Heq. rewrite !length_fmap in Heq. exact Heq. }
  destruct (decide (l' = [])) as [->|Hne'], (decide (l = [])) as [->|Hne];
    try reflexivity.
  - destruct l; [contradiction|discriminate].
  - destruct l'; [contradiction|discriminate].
  - rewrite Heq. destruct (py_max (cl_coefficient <$> l)) as [m|e]; [|reflexivity].
    cbn. destruct (py_index m (cl_coefficient <$> l)) as [k|e]; [|reflexivity].
    cbn. unfold getitem.
    destruct (l !! k) as [c|] eqn:Hk.
    + destruct (lookup_lt_is_Some_2 l' k) as [c' ->]; [|reflexivity].
      apply lookup_lt_Some in Hk. lia.
    + rewrite (lookup_ge_None_2 l' k); [reflexivity|].
      apply lookup_ge_None in Hk. lia.
Qed.

(** Ids grow along the list the selection of a tick works on. *)
Lemma reachable_ids_sorted (s : AuctionIO) :
  reachable s ->
  StronglySorted Z.lt (cl_id <$> (refresh_row (num_clients s) <$> clients_list s)).
Proof.
  intros Hs. rewrite fmap_id_refresh. apply reachable_wf. assumption.
Qed.

(** C4: on a non-empty queue the selection of lines 228-231 returns a row of
    greatest coefficient; among rows of equal greatest coefficient it returns
    the earliest in the list, which, ids growing along the list, is the one
    with the smallest id; and the row returned depends on the coefficients
    only, so selecting again under the same coefficients returns the same
    position. *)
Theorem select_max_greatest_earliest (l : list client) :
  l <> [] ->
  exists k c,
    select_max l = Ok (Some k) /\ l !! k = Some c /\
    (forall c', c' ∈ l -> (cl_coefficient c' <= cl_coefficient c)%R) /\
    (forall j c', l !! j = Some c' -> cl_coefficient c' = cl_coefficient c -> (k <= j)%nat) /\
    (StronglySorted Z.lt (cl_id <$> l) ->
     forall c', c' ∈ l -> cl_coefficient c' = cl_coefficient c -> (cl_id c <= cl_id c')%Z) /\
    (forall l', cl_coefficient <$> l' = cl_coefficient <$> l -> select_max l' = Ok (Some k)).
Proof.
  intros Hne. destruct (select_max_run l Hne) as (k & c & Hsel & Hk & Hle & Hlt).
  assert (Hfirst : forall j c', l !! j = Some c' ->
                     cl_coefficient c' = cl_coefficient c -> (k <= j)%nat).
  { intros j c' Hj Heq. destruct (decide (j < k)%nat) as [Hjk|]; [|lia].
    specialize (Hlt j c' Hjk Hj). lra. }
  exists k, c. split; [assumption|]. split; [assumption|]. split; [|split; [|split]].
  - intros c' Hin. apply list_elem_of_lookup_1 in Hin as (j & Hj). eapply Hle; eassumption.
  - exact Hfirst.
  - intros Hids c' Hin Heq. apply list_elem_of_lookup_1 in Hin as (j & Hj).
    specialize (Hfirst j c' Hj Heq).
    destruct (decide (k = j)) as [->|Hkj].
    + rewrite Hk in Hj. injection Hj as ->. lia.
    + assert (cl_id c < cl_id c')%Z; [|lia].
      apply (sorted_lookup_lt (cl_id <$> l) k j); [assumption|lia| |];
        rewrite list_lookup_fmap; [rewrite Hk|rewrite Hj]; reflexivity.
  - intros l' Heq. rewrite (select_max_same_coefficients l l' Heq). assumption.
Qed.

Lemma select_max_greatest_earliest_witness :
  let l := [Client 1 [7%Z] 2 1%R; Client 2 [5%Z] 1 3%R; Client 4 [9%Z] 1 3%R] in
  l <> [] /\ select_max l = Ok (Some 1%nat).
Proof.
  intros l. split; [discriminate|].
  destruct (select_max_greatest_earliest l) as (k & c & -> & Hk & Hmax & Hfirst & _);
    [discriminate|].
  do 2 f_equal.
  destruct k as [|[|[|k]]]; [|reflexivity| |discriminate].
  - injection Hk as <-. exfalso.
    assert (H : (3 <= 1)%R) by (apply (Hmax (Client 2 [5%Z] 1 3%R)); right; left).
    lra.
  - injection Hk as <-. exfalso.
    assert (H : (2 <= 1)%nat) by (apply (Hfirst 1%nat (Client 2 [5%Z] 1 3%R)); reflexivity).
    lia.
Defined.

(** ** Properties of a tick *)

(** A property of rows that holds of every refreshed row, and of a refreshed
    row after the loss of its first file, holds of the whole queue after the
    tick. *)
Lemma tick_Forall (P : client -> Prop) (s s' : AuctionIO) :
  tick s s' ->
  (forall cl, cl ∈ clients_list s -> P (refresh_row (num_clients s) cl)) ->
  (forall cl v rest, cl ∈ clients_list s -> cl_files cl = v :: rest ->
     P (Client (cl_id cl) rest (cl_time cl + 1)
               (cl_coefficient (refresh_row (num_clients s) cl)))) ->
  Forall P (clients_list s').
Proof.
  intros Htick Hrow Hdrop.
  assert (Hall : Forall P (refresh_row (num_clients s) <$> clients_list s)).
  { apply Forall_fmap, Forall_forall. intros cl Hin. apply Hrow. assumption. }
  destruct Htick as [Hnil | l k c Hl Hmax Hidle | l k c v i Hl Hmax Hidle Hc
                    | l k c v v' rest i Hl Hmax Hidle Hc];
    cbn [clients_list set_clients_list]; subst.
  - rewrite Hnil. constructor.
  - assumption.
  - apply Forall_delete. assumption.
  - apply Forall_insert; [assumption|].
    apply first_max_lookup, list_lookup_fmap_Some_1 in Hmax as (cl & -> & Hcl).
    cbn [cl_id cl_time cl_coefficient refresh_row] in *.
    apply (Hdrop cl v (v' :: rest)); [|assumption].
    eapply list_elem_of_lookup_2; eassumption.
Qed.


(** The state after one client with the single file 5 has entered the
    initial queue. *)
Lemma insert_init_five :
  insert_new_client (init draws_five) =
    (App 1 2 1000 [Client 1 [5%Z] 0 (coefficient_formula 1 0 5)]
         (replicate 5 false) [] (fun n => draws_five (S (S n))), Ok tt).
Proof.
  rewrite (insert_one_file (init draws_five) 5) by (cbn; lia || reflexivity).
  reflexivity.
Qed.

(** ** Removal with the last file, and the order of files *)

Lemma view_refresh (c : Z) (l : list client) :
  (fun cl => (cl_id cl, cl_files cl)) <$> (refresh_row c <$> l)
  = (fun cl => (cl_id cl, cl_files cl)) <$> l.
Proof.
  induction l as [|x l IH]; cbn; [reflexivity|]. f_equal. apply IH.
Qed.

Lemma sorted_not_in_delete (l : list Z) (k : nat) (x : Z) :
  StronglySorted Z.lt l -> l !! k = Some x -> x ∉ delete k l.
Proof.
  intros Hs Hk Hin. apply list_elem_of_lookup_1 in Hin as (j & Hj).
  rewrite list_lookup_delete in Hj.
  destruct (decide (j < k)%nat) as [Hjk|Hjk].
  - assert (x < x)%Z by (apply (sorted_lookup_lt l j k); assumption). lia.
  - assert (x < x)%Z by (apply (sorted_lookup_lt l k (S j)); [assumption|lia|assumption|assumption]). lia.
Qed.

(** C6: no row of the queue is without files between two calls; a tick that
    consumes a file (it then starts a thread for the client) removes the row
    from the queue if and only if the consumed file was its last one, in that
    same call, and otherwise leaves the row in place with the remaining files;
    a tick that consumes nothing leaves ids and files as they were. *)
Theorem client_removed_with_last_file (s : AuctionIO) :
  reachable s ->
  Forall (fun cl => cl_files cl <> []) (clients_list s) /\
  Forall (fun cl => cl_files cl <> []) (clients_list (update s).1) /\
  ((threads (update s).1 = threads s /\ queue_view (update s).1 = queue_view s) \/
   (exists i k cid v rest,
      threads (update s).1 = threads s ++ [Thread i cid] /\
      queue_view s !! k = Some (cid, v :: rest) /\
      ((rest = [] /\
        queue_view (update s).1 = delete k (queue_view s) /\
        cid ∉ cl_id <$> clients_list (update s).1) \/
       (rest <> [] /\
        queue_view (update s).1 = <[k := (cid, rest)]> (queue_view s) /\
        (cid, rest) ∈ queue_view (update s).1)))).
Proof.
  intros Hs. assert (Hwf := reachable_wf s Hs).
  assert (Hwf' := wf_update s Hwf).
  assert (Hnonempty : forall s0, wf s0 -> Forall (fun cl => cl_files cl <> []) (clients_list s0)).
  { intros s0 [_ Hfiles _ _]. eapply Forall_impl; [eassumption|].
    intros cl (Hne & _). exact Hne. }
  split; [apply Hnonempty; assumption|]. split; [apply Hnonempty; assumption|].
  destruct (update_tick s Hwf) as (s' & Hrun & Htick). rewrite Hrun in *. cbn [fst] in *.
  destruct Hwf as [_ _ Hids _].
  assert (Hrow : forall l k c, l = refresh_row (num_clients s) <$> clients_list s ->
            first_max l k c -> queue_view s !! k = Some (cl_id c, cl_files c)).
  { intros l k c -> Hmax.
    apply first_max_lookup, list_lookup_fmap_Some_1 in Hmax as (cl & -> & Hcl).
    unfold queue_view. rewrite list_lookup_fmap, Hcl. reflexivity. }
  destruct Htick as [Hnil | l k c Hl Hmax Hidle | l k c v i Hl Hmax Hidle Hc
                    | l k c v v' rest i Hl Hmax Hidle Hc].
  - left. split; reflexivity.
  - left. split; [reflexivity|]. subst l. apply view_refresh.
  - right. exists i, k, (cl_id c), v, [].
    specialize (Hrow l k c Hl Hmax). rewrite Hc in Hrow.
    split; [reflexivity|]. split; [assumption|]. left.
    split; [reflexivity|]. subst l. unfold queue_view. cbn [clients_list].
    split.
    + rewrite list_fmap_delete, view_refresh. reflexivity.
    + rewrite list_fmap_delete, fmap_id_refresh.
      apply sorted_not_in_delete; [assumption|].
      unfold queue_view in Hrow. rewrite list_lookup_fmap in Hrow.
      rewrite list_lookup_fmap.
      destruct (clients_list s !! k) as [cl|]; [|discriminate].
      cbn in *. congruence.
  - right. exists i, k, (cl_id c), v, (v' :: rest).
    specialize (Hrow l k c Hl Hmax). rewrite Hc in Hrow.
    split; [reflexivity|]. split; [assumption|]. right.
    split; [discriminate|]. subst l. unfold queue_view. cbn [clients_list].
    assert (Heq : (fun cl => (cl_id cl, cl_files cl)) <$>
                    <[k := Client (cl_id c) (v' :: rest) (cl_time c) (cl_coefficient c)]>
                      (refresh_row (num_clients s) <$> clients_list s)
                  = <[k := (cl_id c, v' :: rest)]> (queue_view s)).
    { rewrite list_fmap_insert, view_refresh. reflexivity. }
    split; [exact Heq|]. rewrite Heq.
    eapply list_elem_of_lookup_2. apply list_lookup_insert_eq.
    eapply lookup_lt_Some; eassumption.
Qed.

Lemma client_removed_with_last_file_witness :
  let s := (insert_new_client (init draws_five)).1 in
  reachable s /\
  Forall (fun cl => cl_files cl <> []) (clients_list s) /\
  Forall (fun cl => cl_files cl <> []) (clients_list (update s).1) /\
  ((threads (update s).1 = threads s /\ queue_view (update s).1 = queue_view s) \/
   (exists i k cid v rest,
      threads (update s).1 = threads s ++ [Thread i cid] /\
      queue_view s !! k = Some (cid, v :: rest) /\
      ((rest = [] /\
        queue_view (update s).1 = delete k (queue_view s) /\
        cid ∉ cl_id <$> clients_list (update s).1) \/
       (rest <> [] /\
        queue_view (update s).1 = <[k := (cid, rest)]> (queue_view s) /\
        (cid, rest) ∈ queue_view (update s).1)))).
Proof.
  intros s.
  assert (Hr : reachable s) by (apply reach_insert, reach_init).
  split; [exact Hr|]. apply (client_removed_with_last_file s Hr).
Defined.

(** C7: the files of every queued row are in ascending order between any two
    calls; the row [insert_new_client] appends is sorted; and a tick leaves
    every remaining row with the files it had or with those files less the
    first one, which is no greater than any of the others. *)
Theorem files_stay_sorted (s : AuctionIO) :
  reachable s ->
  Forall (fun cl => Sorted Z.le (cl_files cl)) (clients_list s) /\
  Forall (fun cl => Sorted Z.le (cl_files cl)) (clients_list (insert_new_client s).1) /\
  Forall (fun cl' =>
            Sorted Z.le (cl_files cl') /\
            exists cl, cl ∈ clients_list s /\ cl_id cl' = cl_id cl /\
              (cl_files cl' = cl_files cl \/
               exists v, cl_files cl = v :: cl_files cl' /\ Forall (Z.le v) (cl_files cl')))
         (clients_list (update s).1).
Proof.
  intros Hs. assert (Hwf := reachable_wf s Hs).
  assert (Hsorted : forall s0, wf s0 -> Forall (fun cl => Sorted Z.le (cl_files cl)) (clients_list s0)).
  { intros s0 [_ Hfiles _ _]. eapply Forall_impl; [eassumption|].
    intros cl (_ & _ & H). exact H. }
  split; [apply Hsorted; assumption|].
  split; [apply Hsorted, wf_insert; assumption|].
  destruct (update_tick s Hwf) as (s' & -> & Htick). cbn [fst].
  specialize (Hsorted s Hwf). rewrite Forall_forall in Hsorted.
  apply (tick_Forall _ s s' Htick).
  - intros cl Hin. cbn [cl_files cl_id refresh_row].
    split; [apply Hsorted; assumption|].
    exists cl. split; [assumption|]. split; [reflexivity|]. left. reflexivity.
  - intros cl v rest Hin Hfiles. cbn [cl_files cl_id].
    specialize (Hsorted cl Hin). rewrite Hfiles in Hsorted.
    split; [apply Sorted_inv in Hsorted as [H _]; exact H|].
    exists cl. split; [assumption|]. split; [reflexivity|]. right.
    exists v. split; [assumption|]. apply sorted_head_least. assumption.
Qed.

Lemma files_stay_sorted_witness :
  let s := (insert_new_client (init draws_five)).1 in
  reachable s /\
  Forall (fun cl => Sorted Z.le (cl_files cl)) (clients_list s) /\
  Forall (fun cl => Sorted Z.le (cl_files cl)) (clients_list (insert_new_client s).1) /\
  Forall (fun cl' =>
            Sorted Z.le (cl_files cl') /\
            exists cl, cl ∈ clients_list s /\ cl_id cl' = cl_id cl /\
              (cl_files cl' = cl_files cl \/
               exists v, cl_files cl = v :: cl_files cl' /\ Forall (Z.le v) (cl_files cl')))
         (clients_list (update s).1).
Proof.
  intros s.
  assert (Hr : reachable s) by (apply reach_insert, reach_init).
  split; [exact Hr|]. apply (files_stay_sorted s Hr).
Defined.

(** ** Two runs *)

(** The tick after a client with the single file 5 has entered the initial
    queue: host 0 is idle, a thread is started for it and client 1, the file
    is consumed, the row leaves and the counter returns to 0. *)
Example tick_serves_single_client :
  update (insert_new_client (init draws_five)).1 =
    (App 0 2 1000 [] (replicate 5 false) [Thread 0 1]
         (fun n => draws_five (S (S n))), Ok tt).
Proof.
  assert (Hwf : wf (insert_new_client (init draws_five)).1)
    by (apply reachable_wf, reach_insert, reach_init).
  destruct (update_tick _ Hwf) as (s' & -> & Htick). f_equal.
  rewrite insert_init_five in Htick. cbn [fst] in Htick.
  destruct Htick as [Hnil | l k c Hl Hmax Hidle | l k c v i Hl Hmax Hidle Hc
                    | l k c v v' rest i Hl Hmax Hidle Hc].
  - discriminate.
  - discriminate.
  - apply first_max_lookup in Hmax. subst l.
    destruct k as [|k]; [|discriminate]. injection Hmax as <-.
    cbn in Hidle. injection Hidle as <-. reflexivity.
  - apply first_max_lookup in Hmax. subst l.
    destruct k as [|k]; [|discriminate]. injection Hmax as <-. discriminate.
Qed.

(** Speeding up by 1000 ms from the initial tick of 1000 ms stops at the
    floor of 100 ms. *)
Example change_clock_tick_floor (g : rng) :
  clock_tick (change_clock_tick (-1000) (init g)).1 = 100%Z.
Proof. reflexivity. Qed.

(** ** The tick interval, the hosts and the threads *)

Lemma change_clock_tick_run (d : Z) (s : AuctionIO) :
  change_clock_tick d s =
    (set_clock_tick (fun _ => Z.max 100 (clock_tick s + d)) s, Ok tt).
Proof.
  unfold change_clock_tick. run. cbn [clock_tick set_clock_tick].
  destruct (decide (clock_tick s + d <= 100)%Z); run;
    unfold set_clock_tick; cbn; do 2 f_equal; lia.
Qed.

Lemma step_proc_pb_begin_run (i : nat) (s : AuctionIO) :
  step_proc_pb_begin i s =
    if decide (i < length (status_list s))%nat
    then (set_status_list (fun l => <[i := true]> l) s, Ok tt)
    else (s, Raise IndexError).
Proof.
  unfold step_proc_pb_begin, getitem. run.
  destruct (decide (i < length (status_list s))%nat) as [Hlt|Hge].
  - destruct (lookup_lt_is_Some_2 _ _ Hlt) as [b ->]. run. reflexivity.
  - rewrite lookup_ge_None_2 by lia. reflexivity.
Qed.

Lemma step_proc_pb_end_run (i : nat) (s : AuctionIO) :
  step_proc_pb_end i s =
    if decide (i < length (status_list s))%nat
    then (set_status_list (fun l => <[i := false]> l) s, Ok tt)
    else (s, Raise IndexError).
Proof.
  unfold step_proc_pb_end, getitem. run.
  destruct (decide (i < length (status_list s))%nat) as [Hlt|Hge].
  - destruct (lookup_lt_is_Some_2 _ _ Hlt) as [b ->]. run. reflexivity.
  - rewrite lookup_ge_None_2 by lia. reflexivity.
Qed.

Lemma settled_frame (s s' : AuctionIO) :
  (100 <= clock_tick s')%Z ->
  length (status_list s') = length (status_list s) ->
  id s' = id s -> clients_list s' = clients_list s -> threads s' = threads s ->
  settled s -> settled s'.
Proof.
  intros H1 H2 H3 H4 H5 [Hc Hh Hid Hids Ht Ht0 Hth].
  split; rewrite ?H2, ?H3, ?H4, ?H5; assumption.
Qed.

Lemma fmap_time_refresh (c : Z) (l : list client) :
  cl_time <$> (refresh_row c <$> l) = (fun t => t + 1)%Z <$> (cl_time <$> l).
Proof.
  induction l as [|x l IH]; cbn; [reflexivity|]. f_equal. apply IH.
Qed.

Lemma settled_init (g : rng) : settled (init g).
Proof.
  split; cbn; try lia; constructor.
Qed.

Lemma settled_insert (s : AuctionIO) :
  wf s -> settled s -> settled (insert_new_client s).1.
Proof.
  intros [Hcount _ _ _] [Hc Hh Hid Hids Ht Ht0 Hth].
  destruct (insert_new_client_run s) as (v & rest & g & _ & _ & ->); [lia|].
  split; cbn [fst clock_tick status_list id clients_list threads]; try assumption.
  - lia.
  - apply Forall_app. split; [assumption|]. constructor; [cbn; lia|constructor].
  - rewrite fmap_app. apply StronglySorted_app_2.
    + intros x1 x2 Hx1 Hx2. cbn in Hx2. apply list_elem_of_singleton in Hx2 as ->.
      apply list_elem_of_fmap in Hx1 as (cl & -> & Hcl).
      rewrite Forall_forall in Ht0. apply Ht0. assumption.
    + assumption.
    + cbn. repeat constructor.
  - apply Forall_app. split; [assumption|]. constructor; [cbn; lia|constructor].
  - eapply Forall_impl; [eassumption|]. cbn. intros t (H1 & H2). split; lia.
Qed.

Lemma settled_tick (s s' : AuctionIO) :
  wf s -> settled s -> tick s s' -> settled s'.
Proof.
  intros [_ _ _ Hnext] Hst Htick. assert (Hst' := Hst).
  destruct Hst' as [Hc Hh Hid Hids Ht Ht0 Hth].
  set (l0 := refresh_row (num_clients s) <$> clients_list s).
  assert (Hids' : Forall (fun cl => (1 <= cl_id cl)%Z) l0)
    by (apply Forall_refresh; auto).
  assert (Hnext' : Forall (fun cl => (cl_id cl < id s)%Z) l0)
    by (apply Forall_refresh; auto).
  assert (Ht0' : Forall (fun cl => (0 <= cl_time cl)%Z) l0)
    by (apply Forall_refresh; [cbn; intros; lia|assumption]).
  assert (Ht' : StronglySorted (fun a b => (b <= a)%Z) (cl_time <$> l0)).
  { unfold l0. rewrite fmap_time_refresh.
    eapply StronglySorted_fmap; [|eassumption]. cbn. intros; lia. }
  assert (Hnew : forall k c i, first_max l0 k c -> first_idle (status_list s) = Some i ->
            Forall (fun t => (th_host t < 5)%nat /\ (1 <= th_client t < id s)%Z)
                   (threads s ++ [Thread i (cl_id c)])).
  { intros k c i Hmax Hidle. apply Forall_app. split; [assumption|].
    constructor; [|constructor]. cbn. apply first_max_lookup in Hmax. split.
    - apply first_idle_Some in Hidle as (Hi & _). apply lookup_lt_Some in Hi. lia.
    - split; [eapply Forall_lookup_1 in Hids'|eapply Forall_lookup_1 in Hnext'];
        eauto. }
  destruct Htick as [Hnil | l k c Hl Hmax Hidle | l k c v i Hl Hmax Hidle Hc'
                    | l k c v v' rest i Hl Hmax Hidle Hc']; [assumption| | |];
    assert (Hk := first_max_lookup _ _ _ Hmax); subst l; fold l0 in Hmax, Hk;
    split; cbn [clock_tick status_list id clients_list threads set_clients_list];
    try assumption; try fold l0.
  - apply Forall_delete; assumption.
  - rewrite list_fmap_delete. apply StronglySorted_delete. assumption.
  - apply Forall_delete; assumption.
  - eapply Hnew; eassumption.
  - apply Forall_insert; [assumption|]. cbn. eapply Forall_lookup_1 in Hids'; eauto.
  - rewrite list_fmap_insert. cbn [cl_time]. rewrite list_insert_id; [assumption|].
    rewrite list_lookup_fmap, Hk. reflexivity.
  - apply Forall_insert; [assumption|]. cbn. eapply Forall_lookup_1 in Ht0'; eauto.
  - eapply Hnew; eassumption.
Qed.

Lemma reachable_settled (s : AuctionIO) : reachable s -> settled s.
Proof.
  induction 1 as [g | s Hs IH | s Hs IH | s d _ IH | s i _ IH | s i _ IH].
  - apply settled_init.
  - apply settled_insert; [apply reachable_wf|]; assumption.
  - assert (Hwf := reachable_wf s Hs).
    destruct (update_tick s Hwf) as (s' & -> & Htick).
    eapply settled_tick; eassumption.
  - rewrite change_clock_tick_run. cbn [fst].
    eapply settled_frame; [| | | | |exact IH]; cbn; try reflexivity. lia.
  - rewrite step_proc_pb_begin_run.
    destruct (decide _); cbn [fst]; [|assumption].
    eapply settled_frame; [| | | | |exact IH]; cbn; try reflexivity.
    + apply IH.
    + apply length_insert.
  - rewrite step_proc_pb_end_run.
    destruct (decide _); cbn [fst]; [|assumption].
    eapply settled_frame; [| | | | |exact IH]; cbn; try reflexivity.
    + apply IH.
    + apply length_insert.
Qed.

(** X1: [change_clock_tick] always returns and sets the tick interval to the
    greater of 100 and the old interval plus the component; so in every
    reachable state the interval is at least 100 ms. *)
Theorem clock_tick_floor (s : AuctionIO) :
  reachable s ->
  (100 <= clock_tick s)%Z /\
  forall d,
    (change_clock_tick d s).2 = Ok tt /\
    clock_tick (change_clock_tick d s).1 = Z.max 100 (clock_tick s + d) /\
    (100 <= clock_tick (change_clock_tick d s).1)%Z.
Proof.
  intros Hs. split; [apply reachable_settled; assumption|].
  intros d. rewrite change_clock_tick_run. cbn. split; [reflexivity|]. lia.
Qed.

Lemma clock_tick_floor_witness :
  reachable (init draws_zero) /\
  clock_tick (change_clock_tick (-2000) (init draws_zero)).1 = 100%Z.
Proof.
  split; [apply reach_init|].
  destruct (clock_tick_floor (init draws_zero) (reach_init _)) as (_ & H).
  destruct (H (-2000)%Z) as (_ & -> & _). reflexivity.
Defined.

(** X2: in a reachable state "Slow down" followed by "Speed up" gives the
    state back; "Speed up" followed by "Slow down" gives the interval back
    only from 200 ms on, and 200 ms below that. *)
Theorem slow_down_then_speed_up (s : AuctionIO) :
  reachable s ->
  (speed_up (slow_down s).1).1 = s /\
  clock_tick (slow_down (speed_up s).1).1 = Z.max 200 (clock_tick s).
Proof.
  intros Hs. assert (Hc : (100 <= clock_tick s)%Z) by (apply reachable_settled; assumption).
  unfold speed_up, slow_down.
  repeat (rewrite change_clock_tick_run; cbn [fst clock_tick set_clock_tick]).
  split.
  - unfold set_clock_tick. destruct s.
    cbn [num_clients id clock_tick clients_list status_list threads random] in *.
    f_equal. lia.
  - lia.
Qed.

Lemma slow_down_then_speed_up_witness :
  reachable (init draws_zero) /\
  (speed_up (slow_down (init draws_zero)).1).1 = init draws_zero /\
  clock_tick (slow_down (speed_up (init draws_zero)).1).1
    = Z.max 200 (clock_tick (init draws_zero)).
Proof.
  split; [apply reach_init|].
  apply (slow_down_then_speed_up (init draws_zero)). apply reach_init.
Defined.



Lemma progress_loop_run (n : nat) (slept : R) (s : AuctionIO) :
  (0 <= clock_tick s)%Z ->
  progress_loop n slept s =
    (s, Ok (slept + INR n * (0.05 * (IZR (clock_tick s) / 1000)))%R).
Proof.
  intros Hc. revert slept. induction n as [|n IH]; intros slept.
  - cbn [progress_loop]. run. do 2 f_equal. cbn [INR]. lra.
  - cbn [progress_loop]. run. unfold int_truediv.
    destruct (decide (1000%Z = 0%Z)); [lia|]. run.
    unfold time_sleep.
    assert (Hr : (0 <= IZR (clock_tick s))%R) by (apply IZR_le in Hc; exact Hc).
    destruct (decide (0.05 * (IZR (clock_tick s) / 1000) < 0)%R); [lra|]. run.
    rewrite IH. do 2 f_equal. rewrite S_INR. lra.
Qed.

(** X4: run on its own in a reachable state, [step_proc_pb] for one of the
    five hosts returns after sleeping five tick intervals in all and leaves
    the flag of the host [False] and everything else as it was, so a host that
    was idle before is in the very same state after; for an index beyond the
    hosts it raises [IndexError] and changes nothing. *)
Theorem step_proc_pb_run (s : AuctionIO) (i : nat) :
  reachable s ->
  ((i < 5)%nat ->
   step_proc_pb i s =
     (set_status_list (fun l => <[i := false]> l) s,
      Ok (5 * (IZR (clock_tick s) / 1000))%R)) /\
  (status_list s !! i = Some false -> (step_proc_pb i s).1 = s) /\
  ((5 <= i)%nat -> step_proc_pb i s = (s, Raise IndexError)).
Proof.
  intros Hs. destruct (reachable_settled s Hs) as [Hc Hh _ _ _ _ _].
  assert (Hrun : (i < 5)%nat ->
            step_proc_pb i s =
              (set_status_list (fun l => <[i := false]> l) s,
               Ok (5 * (IZR (clock_tick s) / 1000))%R)).
  { intros Hi. unfold step_proc_pb. rewrite run_bind, step_proc_pb_begin_run.
    destruct (decide (i < length (status_list s))%nat); [|lia].
    rewrite run_bind, progress_loop_run by (cbn; lia).
    rewrite run_bind, step_proc_pb_end_run.
    cbn [status_list set_status_list clock_tick].
    destruct (decide (i < length (<[i := true]> (status_list s)))%nat) as [_|Hn].
    2:{ rewrite length_insert in Hn. lia. }
    run. rewrite (INR_IZR_INZ 100 : INR 100 = 100%R).
    unfold set_status_list.
    cbn [num_clients id clock_tick clients_list status_list threads random].
    rewrite list_insert_insert_eq. do 3 f_equal. lra. }
  split; [exact Hrun|]. split.
  - intros Hi. rewrite Hrun by (apply lookup_lt_Some in Hi; lia). cbn [fst].
    destruct s; unfold set_status_list; cbn in *. f_equal.
    apply list_insert_id. assumption.
  - intros Hi. unfold step_proc_pb. rewrite run_bind, step_proc_pb_begin_run.
    destruct (decide (i < length (status_list s))%nat); [lia|reflexivity].
Qed.

Lemma step_proc_pb_run_witness :
  reachable (init draws_zero) /\
  step_proc_pb 2 (init draws_zero) = (init draws_zero, Ok 5%R) /\
  step_proc_pb 7 (init draws_zero) = (init draws_zero, Raise IndexError).
Proof.
  split; [apply reach_init|].
  destruct (step_proc_pb_run (init draws_zero) 2 (reach_init _)) as (H2 & _ & _).
  destruct (step_proc_pb_run (init draws_zero) 7 (reach_init _)) as (_ & _ & H7).
  split.
  - rewrite H2 by lia. cbn. do 2 f_equal. lra.
  - apply H7. lia.
Defined.

(** ** Ids, waiting times and started threads *)

Lemma StronglySorted_lookup {A} (R : relation A) (l : list A) (i j : nat) (x y : A) :
  StronglySorted R l -> (i < j)%nat -> l !! i = Some x -> l !! j = Some y -> R x y.
Proof.
  intros H. revert i j. induction H as [|a l Hs IH Hall]; intros i j Hij Hi Hj.
  - discriminate.
  - destruct j as [|j]; [lia|]. destruct i as [|i]; cbn in Hi, Hj.
    + injection Hi as ->. rewrite Forall_forall in Hall. apply Hall.
      eapply list_elem_of_lookup_2; eassumption.
    + apply (IH i j); [lia|assumption|assumption].
Qed.

Lemma sorted_length_bound (l : list Z) (lo hi : Z) :
  StronglySorted Z.lt l ->
  Forall (fun x => (lo <= x < hi)%Z) l ->
  (Z.of_nat (length l) <= Z.max 0 (hi - lo))%Z.
Proof.
  intros Hs. revert lo. induction Hs as [|a l Hs IH Hall]; intros lo Hrange.
  - cbn. lia.
  - apply Forall_cons in Hrange as [Ha Hrange].
    assert (Hrange' : Forall (fun x => (lo + 1 <= x < hi)%Z) l).
    { rewrite Forall_forall in *. intros x Hx.
      specialize (Hall x Hx). specialize (Hrange x Hx). lia. }
    specialize (IH (lo + 1)%Z Hrange'). cbn [length]. lia.
Qed.

(** X6: ids are never reused.  In every reachable state the ids of the queued
    rows lie from 1 up to but not including the next id and are pairwise
    different, so the queue holds at most [id - 1] rows; an insertion raises
    the next id by one and a tick leaves it. *)
Theorem ids_never_reused (s : AuctionIO) :
  reachable s ->
  Forall (fun cl => (1 <= cl_id cl < id s)%Z) (clients_list s) /\
  NoDup (cl_id <$> clients_list s) /\
  (Z.of_nat (length (clients_list s)) <= id s - 1)%Z /\
  id (insert_new_client s).1 = (id s + 1)%Z /\
  id (update s).1 = id s.
Proof.
  intros Hs. assert (Hwf := reachable_wf s Hs).
  destruct (reachable_settled s Hs) as [_ _ Hid Hids _ _ _].
  assert (Hwf' := Hwf). destruct Hwf' as [Hcount _ Hsorted Hnext].
  assert (Hrange : Forall (fun cl => (1 <= cl_id cl < id s)%Z) (clients_list s)).
  { rewrite Forall_forall in *. intros cl Hcl.
    specialize (Hids cl Hcl). specialize (Hnext cl Hcl). lia. }
  split; [exact Hrange|]. split; [|split; [|split]].
  - apply NoDup_alt. intros i j x Hi Hj.
    destruct (Nat.lt_trichotomy i j) as [Hij|[Hij|Hij]]; [|assumption|].
    + assert (x < x)%Z by (apply (sorted_lookup_lt _ i j x x Hsorted); assumption). lia.
    + assert (x < x)%Z by (apply (sorted_lookup_lt _ j i x x Hsorted); assumption). lia.
  - assert (H := sorted_length_bound (cl_id <$> clients_list s) 1 (id s) Hsorted).
    rewrite length_fmap in H. rewrite Z.max_r in H by lia. apply H.
    apply Forall_fmap. exact Hrange.
  - destruct (insert_new_client_run s) as (v & rest & g & _ & _ & ->); [lia|].
    reflexivity.
  - destruct (update_tick s Hwf) as (s' & -> & Htick). cbn [fst].
    destruct Htick; reflexivity.
Qed.

Lemma ids_never_reused_witness :
  let s := (insert_new_client (insert_new_client (init draws_five)).1).1 in
  reachable s /\
  Forall (fun cl => (1 <= cl_id cl < id s)%Z) (clients_list s) /\
  NoDup (cl_id <$> clients_list s) /\
  (Z.of_nat (length (clients_list s)) <= id s - 1)%Z /\
  id (insert_new_client s).1 = (id s + 1)%Z /\
  id (update s).1 = id s.
Proof.
  intros s.
  assert (Hr : reachable s) by (apply reach_insert, reach_insert, reach_init).
  split; [exact Hr|]. apply (ids_never_reused s Hr).
Defined.

(** X7: in every reachable state no waiting time is negative, and of two
    queued rows the one nearer the front has the smaller id and has waited at
    least as long as the other. *)
Theorem older_clients_waited_longer (s : AuctionIO) :
  reachable s ->
  Forall (fun cl => (0 <= cl_time cl)%Z) (clients_list s) /\
  forall i j a b,
    (i < j)%nat -> clients_list s !! i = Some a -> clients_list s !! j = Some b ->
    (cl_id a < cl_id b)%Z /\ (cl_time b <= cl_time a)%Z.
Proof.
  intros Hs. destruct (reachable_wf s Hs) as [_ _ Hsorted _].
  destruct (reachable_settled s Hs) as [_ _ _ _ Ht Ht0 _].
  split; [assumption|]. intros i j a b Hij Ha Hb. split.
  - apply (StronglySorted_lookup Z.lt (cl_id <$> clients_list s) i j);
      [assumption|assumption| |]; rewrite list_lookup_fmap;
      [rewrite Ha|rewrite Hb]; reflexivity.
  - apply (StronglySorted_lookup (fun x y => (y <= x)%Z) (cl_time <$> clients_list s) i j);
      [assumption|assumption| |]; rewrite list_lookup_fmap;
      [rewrite Ha|rewrite Hb]; reflexivity.
Qed.

Lemma older_clients_waited_longer_witness :
  let s := (insert_new_client (update (insert_new_client (init draws_zero)).1).1).1 in
  reachable s /\
  Forall (fun cl => (0 <= cl_time cl)%Z) (clients_list s) /\
  forall i j a b,
    (i < j)%nat -> clients_list s !! i = Some a -> clients_list s !! j = Some b ->
    (cl_id a < cl_id b)%Z /\ (cl_time b <= cl_time a)%Z.
Proof.
  intros s.
  assert (Hr : reachable s) by (apply reach_insert, reach_update, reach_insert, reach_init).
  split; [exact Hr|]. apply (older_clients_waited_longer s Hr).
Defined.

(** ** What the coefficient prefers *)

Lemma log_half_decreasing (x y : R) :
  (0 < x)%R -> (x < y)%R -> (log_half y < log_half x)%R.
Proof.
  intros Hx Hxy. rewrite !log_half_log2. assert (Hb := ln_lt_2).
  assert (H := ln_increasing x y Hx Hxy).
  assert (Hd : (ln x / ln 2 < ln y / ln 2)%R).
  { unfold Rdiv. apply Rmult_lt_compat_r; [apply Rinv_0_lt_compat; lra|assumption]. }
  lra.
Qed.

Lemma formula_time_diff (c t t' v : Z) :
  (1 <= c)%Z ->
  (coefficient_formula c t' v - coefficient_formula c t v = IZR (t' - t) / IZR c)%R.
Proof.
  intros Hc. unfold coefficient_formula. rewrite minus_IZR.
  assert (Hr : (1 <= IZR c)%R) by (apply IZR_le in Hc; exact Hc).
  field. lra.
Qed.

Lemma formula_time_lt (c t t' v : Z) :
  (1 <= c)%Z -> (t < t')%Z ->
  (coefficient_formula c t v < coefficient_formula c t' v)%R.
Proof.
  intros Hc Ht. assert (H := formula_time_diff c t t' v Hc).
  assert (Hr : (1 <= IZR c)%R) by (apply IZR_le in Hc; exact Hc).
  assert (Hd : (0 < IZR (t' - t))%R) by (apply IZR_lt; lia).
  assert (Hq : (0 < IZR (t' - t) / IZR c)%R) by (apply Rdiv_lt_0_compat; lra).
  lra.
Qed.

Lemma formula_file_lt (c t v v' : Z) :
  (1 <= c)%Z -> (1 <= v)%Z -> (v < v')%Z ->
  (coefficient_formula c t v' < coefficient_formula c t v)%R.
Proof.
  intros Hc Hv Hvv. unfold coefficient_formula.
  assert (Hr : (1 <= IZR c)%R) by (apply IZR_le in Hc; exact Hc).
  assert (H : (log_half (IZR v' / IZR c) < log_half (IZR v / IZR c))%R).
  { apply log_half_decreasing.
    - apply IZR_div_pos. apply Z.mul_pos_pos; lia.
    - unfold Rdiv. apply Rmult_lt_compat_r; [apply Rinv_0_lt_compat; lra|].
      apply IZR_lt. assumption. }
  lra.
Qed.

Lemma first_max_not_dominated (s : AuctionIO) (k : nat) (c : client) :
  wf s ->
  first_max (refresh_row (num_clients s) <$> clients_list s) k c ->
  exists cl v rest,
    cl ∈ clients_list s /\ cl_id cl = cl_id c /\ cl_files cl = v :: rest /\
    forall cl' v' rest',
      cl' ∈ clients_list s -> cl_files cl' = v' :: rest' ->
      (cl_time cl <= cl_time cl')%Z -> (v' <= v)%Z ->
      cl_time cl' = cl_time cl /\ v' = v /\ (cl_id cl <= cl_id cl')%Z.
Proof.
  intros [Hcount Hfiles Hids _] (Hk & Hle & Hlt).
  apply list_lookup_fmap_Some_1 in Hk as (cl & -> & Hcl).
  assert (Hin : cl ∈ clients_list s) by (eapply list_elem_of_lookup_2; eassumption).
  assert (Hc : (1 <= num_clients s)%Z).
  { rewrite Hcount. apply lookup_lt_Some in Hcl. lia. }
  rewrite Forall_forall in Hfiles.
  destruct (Hfiles cl Hin) as (Hne & Hrange & _).
  destruct (cl_files cl) as [|v rest] eqn:Hf; [contradiction|].
  apply Forall_cons in Hrange as [Hv _].
  exists cl, v, rest. split; [assumption|]. split; [reflexivity|]. split; [assumption|].
  intros cl' v' rest' Hin' Hf' Ht Hvv.
  destruct (Hfiles cl' Hin') as (_ & Hrange' & _). rewrite Hf' in Hrange'.
  apply Forall_cons in Hrange' as [Hv' _].
  apply list_elem_of_lookup_1 in Hin' as (j & Hj).
  assert (Hj' : (refresh_row (num_clients s) <$> clients_list s) !! j
                = Some (refresh_row (num_clients s) cl'))
    by (rewrite list_lookup_fmap, Hj; reflexivity).
  assert (Hcoef := Hle j _ Hj'). cbn [cl_coefficient refresh_row] in Hcoef.
  rewrite Hf, Hf' in Hcoef. cbn [hd] in Hcoef.
  set (n := num_clients s) in *.
  assert (Ht_eq : cl_time cl' = cl_time cl).
  { destruct (decide (cl_time cl < cl_time cl')%Z) as [Hstrict|]; [|lia]. exfalso.
    assert (H1 := formula_time_lt n (cl_time cl + 1) (cl_time cl' + 1) v' Hc ltac:(lia)).
    destruct (decide (v' = v)) as [->|Hne']; [lra|].
    assert (H2 := formula_file_lt n (cl_time cl + 1) v' v Hc ltac:(lia) ltac:(lia)). lra. }
  assert (Hv_eq : v' = v).
  { destruct (decide (v' = v)) as [|Hne']; [assumption|]. exfalso.
    assert (H2 := formula_file_lt n (cl_time cl + 1) v' v Hc ltac:(lia) ltac:(lia)).
    rewrite Ht_eq in Hcoef. lra. }
  split; [assumption|]. split; [assumption|].
  destruct (Nat.lt_trichotomy j k) as [Hjk|[->|Hjk]].
  - exfalso. specialize (Hlt j _ Hjk Hj'). cbn [cl_coefficient refresh_row] in Hlt.
    rewrite Hf, Hf', Ht_eq, Hv_eq in Hlt. cbn [hd] in Hlt. lra.
  - rewrite Hcl in Hj. injection Hj as ->. lia.
  - assert (cl_id cl < cl_id cl')%Z; [|lia].
    apply (sorted_lookup_lt (cl_id <$> clients_list s) k j); [assumption|assumption| |];
      rewrite list_lookup_fmap; [rewrite Hcl|rewrite Hj]; reflexivity.
Qed.

(** X9: the client a tick starts a thread for is never passed over for a
    better one: any queued client that has waited at least as long and whose
    first file is no larger has waited exactly as long, has a first file of
    the same size, and has no smaller id. *)
Theorem served_client_not_dominated (s : AuctionIO) (i : nat) (cid : Z) :
  reachable s ->
  threads (update s).1 = threads s ++ [Thread i cid] ->
  exists cl v rest,
    cl ∈ clients_list s /\ cl_id cl = cid /\ cl_files cl = v :: rest /\
    forall cl' v' rest',
      cl' ∈ clients_list s -> cl_files cl' = v' :: rest' ->
      (cl_time cl <= cl_time cl')%Z -> (v' <= v)%Z ->
      cl_time cl' = cl_time cl /\ v' = v /\ (cl_id cl <= cl_id cl')%Z.
Proof.
  intros Hs. assert (Hwf := reachable_wf s Hs).
  destruct (update_tick s Hwf) as (s' & -> & Htick). cbn [fst].
  assert (Hsame : threads s <> threads s ++ [Thread i cid]).
  { intros H. apply (f_equal length) in H. rewrite length_app in H. cbn in H. lia. }
  destruct Htick as [Hnil | l k c Hl Hmax Hidle | l k c v i0 Hl Hmax Hidle Hc
                    | l k c v v' rest i0 Hl Hmax Hidle Hc];
    cbn [threads set_clients_list]; intros Hth;
    try (exfalso; apply Hsame; exact Hth);
    apply app_inj_tail in Hth as [_ [= -> <-]]; subst l;
    apply (first_max_not_dominated s k c); assumption.
Qed.

Lemma served_client_not_dominated_witness :
  let s := (insert_new_client (init draws_five)).1 in
  reachable s /\ threads (update s).1 = threads s ++ [Thread 0 1] /\
  exists cl v rest,
    cl ∈ clients_list s /\ cl_id cl = 1%Z /\ cl_files cl = v :: rest /\
    forall cl' v' rest',
      cl' ∈ clients_list s -> cl_files cl' = v' :: rest' ->
      (cl_time cl <= cl_time cl')%Z -> (v' <= v)%Z ->
      cl_time cl' = cl_time cl /\ v' = v /\ (cl_id cl <= cl_id cl')%Z.
Proof.
  intros s.
  assert (Hr : reachable s) by (apply reach_insert, reach_init).
  assert (Hth : threads (update s).1 = threads s ++ [Thread 0 1]).
  { unfold s. rewrite tick_serves_single_client, insert_init_five. reflexivity. }
  split; [exact Hr|]. split; [exact Hth|].
  apply (served_client_not_dominated s 0 1 Hr Hth).
Defined.

(** ** When a tick dispatches, and what it keeps *)

Lemma first_idle_None (hosts : list bool) :
  first_idle hosts = None <-> forall i, hosts !! i <> Some false.
Proof.
  unfold first_idle. split.
  - destruct (list_find _ hosts) as [[i' b]|] eqn:Hfind; [discriminate|].
    intros _ i Hi. apply list_find_None in Hfind.
    eapply Forall_lookup_1 in Hfind; [|eassumption]. apply Hfind. reflexivity.
  - intros H. destruct (list_find _ hosts) as [[i' b]|] eqn:Hfind; [|reflexivity].
    apply list_find_Some in Hfind as (Hi & -> & _). exfalso. apply (H i'). assumption.
Qed.

(** X10: on an empty queue a tick changes nothing at all; when no host flag
    is [False] it starts no thread and leaves the counter and the ids and
    files of the queue as they are; and when a client is queued and some host
    flag is [False] it does start a thread. *)
Theorem dispatch_needs_client_and_idle_host (s : AuctionIO) :
  reachable s ->
  (clients_list s = [] -> update s = (s, Ok tt)) /\
  ((forall i, status_list s !! i <> Some false) ->
   threads (update s).1 = threads s /\
   queue_view (update s).1 = queue_view s /\
   num_clients (update s).1 = num_clients s) /\
  (clients_list s <> [] -> (exists i, status_list s !! i = Some false) ->
   exists i cid, threads (update s).1 = threads s ++ [Thread i cid]).
Proof.
  intros Hs. assert (Hwf := reachable_wf s Hs).
  destruct (update_tick s Hwf) as (s' & Hrun & Htick). rewrite Hrun. cbn [fst].
  split; [|split].
  - intros Hnil. f_equal.
    destruct Htick as [_ | l k c Hl Hmax _ | l k c v i Hl Hmax _ _
                      | l k c v v' rest i Hl Hmax _ _]; [reflexivity| | |];
      exfalso; apply first_max_lookup in Hmax; subst l; rewrite Hnil in Hmax;
      discriminate.
  - intros Hbusy. apply first_idle_None in Hbusy.
    destruct Htick as [_ | l k c Hl Hmax _ | l k c v i Hl Hmax Hidle _
                      | l k c v v' rest i Hl Hmax Hidle _]; try congruence.
    + repeat split.
    + split; [reflexivity|]. split; [|reflexivity]. subst l. apply view_refresh.
  - intros Hne (i0 & Hi0).
    destruct Htick as [Hnil | l k c Hl Hmax Hidle | l k c v i Hl Hmax Hidle _
                      | l k c v v' rest i Hl Hmax Hidle _].
    + contradiction.
    + exfalso. rewrite first_idle_None in Hidle. apply (Hidle i0). assumption.
    + eexists _, _. reflexivity.
    + eexists _, _. reflexivity.
Qed.

Lemma dispatch_needs_client_and_idle_host_witness :
  reachable (init draws_zero) /\ clients_list (init draws_zero) = [] /\
  update (init draws_zero) = (init draws_zero, Ok tt).
Proof.
  split; [apply reach_init|]. split; [reflexivity|].
  apply (dispatch_needs_client_and_idle_host (init draws_zero)); [apply reach_init|reflexivity].
Defined.

Ltac sum_lia :=
  unfold Datatypes.id;
  repeat match goal with
         | |- context [sum_list_with ?f ?l] =>
             let n := fresh "n" in generalize (sum_list_with f l); intros n
         end;
  lia.

Lemma sum_list_delete (l : list nat) (k x : nat) :
  l !! k = Some x -> sum_list l = (x + sum_list (delete k l))%nat.
Proof.
  revert k. induction l as [|y l IH]; intros [|k] Hk; try discriminate.
  - injection Hk as ->. reflexivity.
  - change (delete (S k) (y :: l)) with (y :: delete k l).
    change (l !! k = Some x) in Hk. cbn [sum_list_with].
    rewrite (IH k Hk). sum_lia.
Qed.

Lemma sum_list_insert (l : list nat) (k x y : nat) :
  l !! k = Some x -> (sum_list (<[k := y]> l) + x = sum_list l + y)%nat.
Proof.
  revert k. induction l as [|z l IH]; intros [|k] Hk; try discriminate.
  - injection Hk as ->. change (<[0%nat := y]> (x :: l)) with (y :: l).
    cbn [sum_list_with]. sum_lia.
  - change (<[S k := y]> (z :: l)) with (z :: <[k := y]> l).
    change (l !! k = Some x) in Hk. cbn [sum_list_with].
    specialize (IH k Hk). revert IH. sum_lia.
Qed.

Lemma lengths_refresh (c : Z) (l : list client) :
  (fun cl => length (cl_files cl)) <$> (refresh_row c <$> l)
  = (fun cl => length (cl_files cl)) <$> l.
Proof.
  induction l as [|x l IH]; cbn; [reflexivity|]. f_equal. apply IH.
Qed.

(** X11: no file is lost.  A tick takes one file from the queue for each
    thread it starts and none otherwise, so the number of queued files plus
    the number of started threads is the same after the tick as before; an
    insertion starts no thread and adds between 1 and 10 files. *)
Theorem files_conserved (s : AuctionIO) :
  reachable s ->
  (total_files (update s).1 + length (threads (update s).1)
   = total_files s + length (threads s))%nat /\
  threads (insert_new_client s).1 = threads s /\
  (total_files s + 1 <= total_files (insert_new_client s).1 <= total_files s + 10)%nat.
Proof.
  intros Hs. assert (Hwf := reachable_wf s Hs). split; [|].
  - destruct (update_tick s Hwf) as (s' & -> & Htick). cbn [fst].
    unfold total_files.
    destruct Htick as [Hnil | l k c Hl Hmax Hidle | l k c v i Hl Hmax Hidle Hc
                      | l k c v v' rest i Hl Hmax Hidle Hc];
      cbn [threads clients_list set_clients_list]; try reflexivity;
      try (apply first_max_lookup in Hmax); subst l.
    + rewrite lengths_refresh. reflexivity.
    + rewrite list_fmap_delete, length_app. cbn [length].
      assert (H := sum_list_delete
                     ((fun cl => length (cl_files cl)) <$>
                        (refresh_row (num_clients s) <$> clients_list s)) k 1).
      rewrite list_lookup_fmap, Hmax in H. cbn in H. rewrite Hc in H.
      specialize (H eq_refl). rewrite lengths_refresh in *. lia.
    + rewrite list_fmap_insert, length_app. cbn [length cl_files].
      assert (H := sum_list_insert
                     ((fun cl => length (cl_files cl)) <$>
                        (refresh_row (num_clients s) <$> clients_list s))
                     k (S (S (length rest))) (S (length rest))).
      rewrite list_lookup_fmap, Hmax in H. cbn in H. rewrite Hc in H.
      specialize (H eq_refl). rewrite lengths_refresh in *. lia.
  - destruct Hwf as [Hcount _ _ _].
    destruct (insert_new_client_run s) as (v & rest & g & _ & Hlen & ->); [lia|].
    cbn [fst threads]. split; [reflexivity|].
    unfold total_files. cbn [clients_list]. rewrite fmap_app, sum_list_with_app.
    cbn in *. lia.
Qed.

Lemma files_conserved_witness :
  let s := (insert_new_client (init draws_five)).1 in
  reachable s /\
  (total_files (update s).1 + length (threads (update s).1)
   = total_files s + length (threads s))%nat /\
  threads (insert_new_client s).1 = threads s /\
  (total_files s + 1 <= total_files (insert_new_client s).1 <= total_files s + 10)%nat.
Proof.
  intros s.
  assert (Hr : reachable s) by (apply reach_insert, reach_init).
  split; [exact Hr|]. apply (files_conserved s Hr).
Defined.

(** ** What an insertion can generate, and the first tick after it *)

Lemma draw_files_nth (xs : list Z) (s : AuctionIO) :
  Forall (fun v => 1 <= v <= 1000)%Z xs ->
  (forall n, (n < length xs)%nat -> random s n = (nth n xs 1 - 1)%Z) ->
  exists g, draw_files (length xs) s = (set_random g s, Ok xs).
Proof.
  revert s. induction xs as [|x xs IH]; intros s Hall Hdraws.
  - exists (random s). destruct s; reflexivity.
  - apply Forall_cons in Hall as [Hx Hall].
    cbn [length draw_files]. rewrite run_bind, rand_run.
    unfold randint. cbn [fst snd].
    rewrite (Hdraws 0%nat) by (cbn; lia). cbn [nth].
    change (1000 - 1 + 1)%Z with 1000%Z.
    rewrite Z.mod_small by lia.
    replace (1 + (x - 1))%Z with x by lia.
    destruct (IH (set_random (fun n => random s (S n)) s) Hall) as (g & Hrun).
    { intros n Hn. cbn [random set_random]. rewrite (Hdraws (S n)) by (cbn; lia).
      reflexivity. }
    rewrite run_bind, Hrun, run_ret. exists g. reflexivity.
Qed.

(** X12: every list of 1 to 10 sizes from 1 to 1000 can be generated: when
    the random source yields its length and then its items, in whatever
    order, [insert_new_client] returns and the client enters the queue with
    exactly these files, sorted. *)
Theorem any_files_can_be_generated (s : AuctionIO) (files : list Z) :
  reachable s ->
  (1 <= length files <= 10)%nat ->
  Forall (fun v => 1 <= v <= 1000)%Z files ->
  (forall n, (n <= length files)%nat -> random s n = draws_for files n) ->
  exists co,
    (insert_new_client s).2 = Ok tt /\
    clients_list (insert_new_client s).1
      = clients_list s ++ [Client (id s) (ZSort.sort files) 0 co].
Proof.
  intros Hs Hlen Hall Hdraws.
  assert (Hc := reachable_count_nonneg s Hs).
  unfold insert_new_client.
  rewrite run_bind, run_modify, run_bind, rand_run.
  unfold randint. cbn [fst snd random set_num_clients].
  rewrite (Hdraws 0%nat) by lia. cbn [draws_for].
  change (11 - 2 + 1)%Z with 10%Z. rewrite Z.mod_small by lia.
  replace (range_len (2 + (Z.of_nat (length files) - 1))) with (length files)
    by (unfold range_len; lia).
  set (s1 := set_random _ _).
  destruct (draw_files_nth files s1 Hall) as (g & Hrun).
  { intros n Hn. unfold s1. cbn [random set_random].
    rewrite (Hdraws (S n)) by lia. reflexivity. }
  rewrite run_bind, Hrun.
  assert (Hne : files <> []) by (intros ->; cbn in Hlen; lia).
  destruct (sort_files_ok files Hne Hall) as (Hne' & Hall' & _).
  destruct (ZSort.sort files) as [|v rest] eqn:Hsort; [contradiction|].
  apply Forall_cons in Hall' as [Hv _].
  run. cbn [num_clients set_random s1 set_num_clients].
  rewrite coefficient_pos by (apply Z.mul_pos_pos; lia).
  run. eexists. split; reflexivity.
Qed.

Lemma any_files_can_be_generated_witness :
  reachable (init (draws_for [7%Z; 3%Z])) /\
  exists co,
    (insert_new_client (init (draws_for [7%Z; 3%Z]))).2 = Ok tt /\
    clients_list (insert_new_client (init (draws_for [7%Z; 3%Z]))).1
      = [Client 1 [3%Z; 7%Z] 0 co].
Proof.
  split; [apply reach_init|].
  apply (any_files_can_be_generated (init (draws_for [7%Z; 3%Z])) [7%Z; 3%Z]).
  - apply reach_init.
  - cbn. lia.
  - repeat constructor; lia.
  - intros n Hn. reflexivity.
Defined.

(** X13: a client inserted into an empty queue is served at the next tick
    whenever a host is idle: the tick starts a thread for the first idle host
    and the new client, whose id is the next id before the insertion, and
    takes its first file; the client stays queued with its other files, or
    leaves the queue if it had only one. *)
Theorem new_client_served_at_next_tick (s : AuctionIO) (i : nat) :
  reachable s ->
  clients_list s = [] ->
  status_list s !! i = Some false ->
  (forall j, (j < i)%nat -> status_list s !! j = Some true) ->
  exists v rest,
    queue_view (insert_new_client s).1 = [(id s, v :: rest)] /\
    threads (update (insert_new_client s).1).1 = threads s ++ [Thread i (id s)] /\
    queue_view (update (insert_new_client s).1).1
      = match rest with [] => [] | _ :: _ => [(id s, rest)] end.
Proof.
  intros Hs Hnil Hi Hbefore.
  assert (Hs1 : reachable (insert_new_client s).1) by (apply reach_insert; assumption).
  assert (Hwf1 := reachable_wf _ Hs1).
  destruct (update_tick _ Hwf1) as (s' & -> & Htick). cbn [fst].
  destruct (insert_new_client_run s (reachable_count_nonneg s Hs))
    as (v & rest & g & _ & _ & Hrun).
  rewrite Hrun in *. cbn [fst] in *. rewrite Hnil in *. cbn [app] in *.
  exists v, rest. split; [reflexivity|].
  assert (Hfirst : first_idle (status_list s) = Some i) by (apply first_idle_Some; auto).
  destruct Htick as [Hnil' | l k c Hl Hmax Hidle | l k c v0 i0 Hl Hmax Hidle Hc
                    | l k c v0 v1 rest0 i0 Hl Hmax Hidle Hc];
    cbn [clients_list status_list threads num_clients id clock_tick random] in *.
  - discriminate.
  - congruence.
  - apply first_max_lookup in Hmax. subst l.
    destruct k as [|k]; [|discriminate]. injection Hmax as <-.
    cbn [cl_files cl_id refresh_row] in *. injection Hc as -> ->.
    assert (i0 = i) by congruence. subst i0. split; reflexivity.
  - apply first_max_lookup in Hmax. subst l.
    destruct k as [|k]; [|discriminate]. injection Hmax as <-.
    cbn [cl_files cl_id refresh_row] in *. injection Hc as -> ->.
    assert (i0 = i) by congruence. subst i0. split; reflexivity.
Qed.

Lemma new_client_served_at_next_tick_witness :
  reachable (init draws_five) /\ clients_list (init draws_five) = [] /\
  status_list (init draws_five) !! 0%nat = Some false /\
  exists v rest,
    queue_view (insert_new_client (init draws_five)).1 = [(1%Z, v :: rest)] /\
    threads (update (insert_new_client (init draws_five)).1).1 = [Thread 0 1] /\
    queue_view (update (insert_new_client (init draws_five)).1).1
      = match rest with [] => [] | _ :: _ => [(1%Z, rest)] end.
Proof.
  split; [apply reach_init|]. split; [reflexivity|]. split; [reflexivity|].
  apply (new_client_served_at_next_tick (init draws_five) 0).
  - apply reach_init.
  - reflexivity.
  - reflexivity.
  - intros j Hj. lia.
Defined.

(** X14: the order of the queue is never changed.  After a tick the ids of
    the queue are those before it, in the same order, less at most one; an
    insertion puts the new id, the next id, at the end. *)
Theorem queue_order_kept (s : AuctionIO) :
  reachable s ->
  sublist (cl_id <$> clients_list (update s).1) (cl_id <$> clients_list s) /\
  (length (clients_list s) <= S (length (clients_list (update s).1)))%nat /\
  cl_id <$> clients_list (insert_new_client s).1 = (cl_id <$> clients_list s) ++ [id s].
Proof.
  intros Hs. assert (Hwf := reachable_wf s Hs). split; [|split].
  - destruct (update_tick s Hwf) as (s' & -> & Htick). cbn [fst].
    destruct Htick as [Hnil | l k c Hl Hmax Hidle | l k c v i Hl Hmax Hidle Hc
                      | l k c v v' rest i Hl Hmax Hidle Hc];
      cbn [clients_list set_clients_list]; try reflexivity;
      try (apply first_max_lookup in Hmax); subst l.
    + rewrite fmap_id_refresh. reflexivity.
    + rewrite list_fmap_delete, fmap_id_refresh. apply sublist_delete.
    + rewrite list_fmap_insert, fmap_id_refresh. cbn [cl_id].
      rewrite list_insert_id; [reflexivity|].
      rewrite <- (fmap_id_refresh (num_clients s)), list_lookup_fmap, Hmax. reflexivity.
  - destruct (update_tick s Hwf) as (s' & -> & Htick). cbn [fst].
    destruct Htick as [Hnil | l k c Hl Hmax Hidle | l k c v i Hl Hmax Hidle Hc
                      | l k c v v' rest i Hl Hmax Hidle Hc];
      cbn [clients_list set_clients_list]; try lia;
      try (apply first_max_lookup in Hmax); subst l.
    + rewrite length_fmap. lia.
    + rewrite length_delete by (eexists; eassumption). rewrite length_fmap. lia.
    + rewrite length_insert, length_fmap. lia.
  - destruct (insert_new_client_run s (reachable_count_nonneg s Hs))
      as (v & rest & g & _ & _ & ->).
    cbn [fst clients_list]. rewrite fmap_app. reflexivity.
Qed.

Lemma queue_order_kept_witness :
  let s := (insert_new_client (insert_new_client (init draws_five)).1).1 in
  reachable s /\
  sublist (cl_id <$> clients_list (update s).1) (cl_id <$> clients_list s) /\
  (length (clients_list s) <= S (length (clients_list (update s).1)))%nat /\
  cl_id <$> clients_list (insert_new_client s).1 = (cl_id <$> clients_list s) ++ [id s].
Proof.
  intros s.
  assert (Hr : reachable s) by (apply reach_insert, reach_insert, reach_init).
  split; [exact Hr|]. apply (queue_order_kept s Hr).
Defined.

(** ** The whole queue across a tick *)

(** The state after a client with the files 3 and 7, drawn as 7 and 3, has
    entered the initial queue. *)
Lemma insert_init_three_seven :
  insert_new_client (init (draws_for [7%Z; 3%Z])) =
    (App 1 2 1000 [Client 1 [3%Z; 7%Z] 0 (coefficient_formula 1 0 3)]
         (replicate 5 false) [] (fun n => draws_for [7%Z; 3%Z] (S (S (S n)))), Ok tt).
Proof.
  unfold insert_new_client.
  rewrite run_bind, run_modify, run_bind, rand_run.
  unfold randint; cbn [fst snd set_random random set_num_clients init].
  change (range_len (2 + draws_for [7%Z; 3%Z] 0 mod (11 - 2 + 1))) with 2%nat.
  cbn [draw_files]. rewrite !run_bind, rand_run.
  unfold randint; cbn [fst snd set_random random].
  rewrite !run_bind, rand_run.
  unfold randint; cbn [fst snd set_random random].
  run.
  change (ZSort.sort _) with [3%Z; 7%Z].
  cbn [num_clients set_random set_num_clients init].
  change (0 + 1)%Z with 1%Z.
  rewrite coefficient_pos by lia. run. reflexivity.
Qed.

(** C1: the coefficient of the row [insert_new_client] appends is the
    formula at the queue size after the insertion, time 0 and the first,
    smallest file.  In a tick the loop of lines 221-225 returns and replaces
    every row of the queue, the one served later included, by a row with the
    same id and files, the time raised by one and the coefficient the formula
    gives for the one queue size the tick starts with, the new time and the
    first, smallest file of the row; the queue after the tick is this list,
    or this list with the served row deleted or without its first file, so
    no other row is dropped or left with its old time.  A client with the
    single file 5 entering an empty queue gets
    [(1/1)*0 + log_half (5/1) = -(ln 5 / ln 2)], which lies within a
    ten-thousandth of -2.3219. *)
Theorem coefficient_follows_formula (s : AuctionIO) :
  reachable s ->
  (exists cl v rest,
     clients_list (insert_new_client s).1 = clients_list s ++ [cl] /\
     cl_files cl = v :: rest /\ Forall (Z.le v) rest /\
     cl_time cl = 0%Z /\
     cl_coefficient cl =
       coefficient_formula
         (Z.of_nat (length (clients_list (insert_new_client s).1))) 0 v) /\
  (exists l,
     refresh_loop (length (clients_list s)) 0 s
       = (set_clients_list (fun _ => l) s, Ok tt) /\
     Forall2 (fun cl cl' =>
                cl_id cl' = cl_id cl /\ cl_files cl' = cl_files cl /\
                cl_time cl' = (cl_time cl + 1)%Z /\
                exists v rest,
                  cl_files cl = v :: rest /\ Forall (Z.le v) rest /\
                  cl_coefficient cl' =
                    coefficient_formula
                      (Z.of_nat (length (clients_list s))) (cl_time cl + 1) v)
             (clients_list s) l /\
     (clients_list (update s).1 = l \/
      exists k cl' v,
        l !! k = Some cl' /\
        ((cl_files cl' = [v] /\ clients_list (update s).1 = delete k l) \/
         (exists v' rest,
            cl_files cl' = v :: v' :: rest /\
            clients_list (update s).1
              = <[k := Client (cl_id cl') (v' :: rest) (cl_time cl')
                               (cl_coefficient cl')]> l)))) /\
  Forall (fun cl' =>
            exists cl v rest,
              cl ∈ clients_list s /\ cl_id cl' = cl_id cl /\
              cl_files cl = v :: rest /\ Forall (Z.le v) rest /\
              cl_time cl' = (cl_time cl + 1)%Z /\
              cl_coefficient cl' =
                coefficient_formula
                  (Z.of_nat (length (clients_list s))) (cl_time cl') v)
         (clients_list (update s).1) /\
  (clients_list s = [] ->
   (random s 0%nat mod 10 = 0)%Z -> (random s 1%nat mod 1000 = 4)%Z ->
   exists co,
     clients_list (insert_new_client s).1 = [Client (id s) [5%Z] 0 co] /\
     co = (1 / 1 * 0 + log_half (5 / 1))%R /\
     co = (- (ln 5 / ln 2))%R /\
     (-2.3220 < co < -2.3218)%R).
Proof.
  intros Hs. assert (Hwf := reachable_wf s Hs).
  assert (Hwf' := Hwf). destruct Hwf' as [Hcount Hfiles _ _].
  split; [|split; [|split]].
  - destruct (insert_new_client_run s (reachable_count_nonneg s Hs))
      as (v & rest & g & (_ & _ & Hsorted) & _ & ->).
    eexists _, v, rest. cbn [fst clients_list].
    split; [reflexivity|]. cbn [cl_files cl_time cl_coefficient].
    split; [reflexivity|]. split; [apply sorted_head_least; assumption|].
    split; [reflexivity|]. f_equal. rewrite length_app. cbn. lia.
  - exists (refresh_row (num_clients s) <$> clients_list s). split; [|split].
    + destruct (clients_list s) as [|cl0 l0] eqn:Hl.
      * cbn [length refresh_loop fmap list_fmap]. run.
        destruct s; cbn in *; subst; reflexivity.
      * rewrite <- Hl in *.
        change 0%nat with (length (@nil client)).
        rewrite (refresh_loop_run (clients_list s) [] s);
          [reflexivity|reflexivity| |assumption].
        rewrite Hcount, Hl. cbn. lia.
    + rewrite <- Hcount. apply Forall2_fmap_r, Forall_Forall2_diag.
      eapply Forall_impl; [exact Hfiles|]. cbn.
      intros cl (Hne & _ & Hsorted).
      destruct (cl_files cl) as [|v rest] eqn:Hcl; [contradiction|].
      split; [reflexivity|]. split; [reflexivity|]. split; [reflexivity|].
      exists v, rest. split; [reflexivity|].
      split; [apply sorted_head_least; assumption|].
      cbn [cl_coefficient refresh_row]. rewrite ?Hcl. reflexivity.
    + destruct (update_tick s Hwf) as (s' & -> & Htick). cbn [fst].
      destruct Htick as [Hnil | l k c Hl Hmax Hidle | l k c v i Hl Hmax Hidle Hc
                        | l k c v v' rest i Hl Hmax Hidle Hc];
        cbn [clients_list set_clients_list]; try subst l.
      * left. rewrite Hnil. reflexivity.
      * left. reflexivity.
      * right. exists k, c, v. split; [eapply first_max_lookup; eassumption|].
        left. split; [assumption|reflexivity].
      * right. exists k, c, v. split; [eapply first_max_lookup; eassumption|].
        right. exists v', rest. split; [assumption|reflexivity].
  - destruct (update_tick s Hwf) as (s' & -> & Htick). cbn [fst].
    rewrite Forall_forall in Hfiles. rewrite <- Hcount.
    apply (tick_Forall _ s s' Htick).
    + intros cl Hin. destruct (Hfiles cl Hin) as (Hne & _ & Hsorted).
      destruct (cl_files cl) as [|v rest] eqn:Hcl; [contradiction|].
      exists cl, v, rest. cbn [cl_id cl_time cl_coefficient refresh_row].
      rewrite Hcl. cbn [hd].
      repeat (split; [first [assumption | reflexivity | apply sorted_head_least; assumption]|]).
      reflexivity.
    + intros cl v rest Hin Hcl. destruct (Hfiles cl Hin) as (_ & _ & Hsorted).
      exists cl, v, rest. cbn [cl_id cl_time cl_coefficient refresh_row].
      rewrite Hcl in *. cbn [hd].
      repeat (split; [first [assumption | reflexivity | apply sorted_head_least; assumption]|]).
      reflexivity.
  - intros Hnil H0 H1.
    rewrite (insert_one_file s 5) by (lia || assumption).
    cbn [fst clients_list]. rewrite Hnil. cbn [app].
    assert (Hc : num_clients s = 0%Z) by (rewrite Hcount, Hnil; reflexivity).
    rewrite Hc. eexists. split; [reflexivity|].
    change (0 + 1)%Z with 1%Z. unfold coefficient_formula.
    split; [reflexivity|].
    assert (Hval : (1 / 1 * 0 + log_half (5 / 1) = - (ln 5 / ln 2))%R).
    { replace (5 / 1)%R with 5%R by lra. rewrite log_half_log2. lra. }
    split; [exact Hval|]. rewrite Hval, <- log_half_log2. apply log_half_5_bounds.
Qed.

Lemma coefficient_follows_formula_witness :
  (reachable (init draws_five) /\
   exists co,
     clients_list (insert_new_client (init draws_five)).1 = [Client 1 [5%Z] 0 co] /\
     co = (1 / 1 * 0 + log_half (5 / 1))%R /\
     co = (- (ln 5 / ln 2))%R /\
     (-2.3220 < co < -2.3218)%R) /\
  (let s := (insert_new_client (init (draws_for [7%Z; 3%Z]))).1 in
   reachable s /\
   exists cl,
     clients_list (update s).1 = [cl] /\
     cl_id cl = 1%Z /\ cl_time cl = 1%Z /\
     cl_coefficient cl = coefficient_formula 1 1 3).
Proof.
  split.
  - split; [apply reach_init|].
    destruct (coefficient_follows_formula (init draws_five) (reach_init draws_five))
      as (_ & _ & _ & Hscenario).
    apply Hscenario; reflexivity.
  - intros s.
    assert (Hr : reachable s) by (apply reach_insert, reach_init).
    split; [exact Hr|].
    destruct (coefficient_follows_formula s Hr) as (_ & (l & _ & Hrows & Hafter) & _ & _).
    unfold s in Hrows, Hafter. rewrite insert_init_three_seven in Hrows, Hafter.
    cbn [fst clients_list length] in Hrows, Hafter.
    apply Forall2_cons_inv_l in Hrows as (cl' & l' & (Hid & Hfiles & Htime & Hco) & Hnil & ->).
    apply Forall2_nil_inv_l in Hnil as ->.
    cbn [cl_id cl_files cl_time] in *.
    destruct Hco as (v & rest & [= <- <-] & _ & Hco). cbn in Htime.
    destruct Hafter as [Hsame | (k & c & v & Hk & [(Hone & _) | (v' & rest & Hmore & Hins)])].
    + exists cl'. unfold s. rewrite insert_init_three_seven. cbn [fst].
      rewrite Hsame. repeat split; assumption.
    + exfalso. destruct k as [|k]; [|discriminate]. injection Hk as <-.
      rewrite Hfiles in Hone. discriminate.
    + destruct k as [|k]; [|discriminate]. injection Hk as <-.
      eexists. unfold s. rewrite insert_init_three_seven. cbn [fst].
      rewrite Hins. cbn [insert list_insert]. split; [reflexivity|].
      cbn [cl_id cl_time cl_coefficient]. repeat split; assumption.
Defined.

(** ** Two ticks in a row, and the index a worker reads *)

(** A tick on a non-empty queue with a first idle host [i]: a thread is
    started for [i] and the client of some row [k], no flag is written, and
    the ids of the queue lose the id at [k] if the row had one file and stay
    as they are otherwise. *)
Lemma tick_dispatch (s s' : AuctionIO) (i : nat) :
  wf s -> tick s s' ->
  clients_list s <> [] -> first_idle (status_list s) = Some i ->
  exists k cl,
    clients_list s !! k = Some cl /\
    threads s' = threads s ++ [Thread i (cl_id cl)] /\
    status_list s' = status_list s /\
    (length (clients_list s) <= S (length (clients_list s')))%nat /\
    ((exists v, cl_files cl = [v] /\
                cl_id <$> clients_list s' = delete k (cl_id <$> clients_list s)) \/
     (exists v v' rest, cl_files cl = v :: v' :: rest /\
                cl_id <$> clients_list s' = cl_id <$> clients_list s /\
                length (clients_list s') = length (clients_list s))).
Proof.
  intros Hwf Htick Hne Hidle.
  destruct Htick as [Hnil | l k c Hl Hmax Hidle' | l k c v i0 Hl Hmax Hidle' Hc
                    | l k c v v' rest i0 Hl Hmax Hidle' Hc];
    [contradiction|congruence| |];
    assert (i0 = i) by congruence; subst i0 l;
    apply first_max_lookup in Hmax;
    assert (Hmax' := Hmax);
    apply list_lookup_fmap_Some_1 in Hmax' as (cl & -> & Hcl);
    exists k, cl; cbn [threads status_list clients_list cl_id refresh_row cl_files] in *;
    (split; [assumption|]); (split; [reflexivity|]); (split; [reflexivity|]).
  - split.
    + rewrite length_delete by (eexists; eassumption). rewrite length_fmap. lia.
    + left. exists v. split; [assumption|].
      rewrite list_fmap_delete, fmap_id_refresh. reflexivity.
  - split; [rewrite length_insert, length_fmap; lia|].
    right. exists v, v', rest. split; [assumption|]. split.
    + rewrite list_fmap_insert, fmap_id_refresh. cbn [cl_id].
      apply list_insert_id. rewrite list_lookup_fmap, Hcl. reflexivity.
    + rewrite length_insert, length_fmap. reflexivity.
Qed.

(** C2: the claim does not hold of the code.  [update] reads the flag of a
    host but never writes it: the flag goes up only when the worker thread
    reaches line 186.  So when a tick has started a thread for the first idle
    host [i] and clients are still queued, the next tick, run before that
    thread has set the flag, finds host [i] idle again and starts a second
    thread for it; if the first client had a single file the second thread is
    for another client, and host [i] serves two clients at once. *)
Theorem host_dispatched_twice (s : AuctionIO) (i : nat) :
  reachable s ->
  clients_list s <> [] ->
  status_list s !! i = Some false ->
  (forall j, (j < i)%nat -> status_list s !! j = Some true) ->
  clients_list (update s).1 <> [] ->
  reachable (update (update s).1).1 /\
  exists c1 c2,
    threads (update (update s).1).1 = threads s ++ [Thread i c1; Thread i c2] /\
    status_list (update s).1 = status_list s /\
    status_list (update (update s).1).1 = status_list s /\
    c1 ∈ cl_id <$> clients_list s /\
    c2 ∈ cl_id <$> clients_list (update s).1 /\
    ((forall cl, cl ∈ clients_list s -> cl_id cl = c1 -> exists v, cl_files cl = [v]) ->
     c1 <> c2).
Proof.
  intros Hs Hne Hi Hbefore Hne1.
  split; [apply reach_update, reach_update; assumption|].
  assert (Hidle : first_idle (status_list s) = Some i) by (apply first_idle_Some; auto).
  assert (Hs1 : reachable (update s).1) by (apply reach_update; assumption).
  assert (Hwf := reachable_wf s Hs). assert (Hwf1 := reachable_wf _ Hs1).
  destruct (update_tick s Hwf) as (s1 & Hrun1 & Htick1).
  rewrite Hrun1 in *. cbn [fst] in *.
  destruct (update_tick s1 Hwf1) as (s2 & -> & Htick2). cbn [fst].
  destruct (tick_dispatch s s1 i Hwf Htick1 Hne Hidle)
    as (k & cl & Hk & Hth1 & Hst1 & _ & Hids1).
  rewrite <- Hst1 in Hidle.
  destruct (tick_dispatch s1 s2 i Hwf1 Htick2 Hne1 Hidle)
    as (k2 & cl2 & Hk2 & Hth2 & Hst2 & _ & _).
  exists (cl_id cl), (cl_id cl2).
  assert (Hin2 : cl_id cl2 ∈ cl_id <$> clients_list s1).
  { apply list_elem_of_fmap. exists cl2. split; [reflexivity|].
    eapply list_elem_of_lookup_2; eassumption. }
  split; [rewrite Hth2, Hth1, <- app_assoc; reflexivity|].
  split; [assumption|]. split; [congruence|]. split; [|split; [assumption|]].
  - apply list_elem_of_fmap. exists cl. split; [reflexivity|].
    eapply list_elem_of_lookup_2; eassumption.
  - intros Hone Heq.
    destruct (Hone cl) as (v & Hv); [eapply list_elem_of_lookup_2; eassumption|reflexivity|].
    destruct Hids1 as [(v0 & _ & Hdel) | (v0 & v' & rest & Hmore & _)].
    + rewrite Hdel, <- Heq in Hin2. revert Hin2.
      apply sorted_not_in_delete; [apply Hwf|].
      rewrite list_lookup_fmap, Hk. reflexivity.
    + rewrite Hv in Hmore. discriminate.
Qed.

(** Two clients with the single file 1 each enter the initial queue; two
    ticks follow with no worker step in between. *)
Lemma insert_init_twice :
  (insert_new_client (insert_new_client (init draws_zero)).1).1 =
    App 2 3 1000
        [Client 1 [1%Z] 0 (coefficient_formula 1 0 1);
         Client 2 [1%Z] 0 (coefficient_formula 2 0 1)]
        (replicate 5 false) [] draws_zero.
Proof.
  rewrite (insert_one_file (init draws_zero) 1) by (cbn; lia || reflexivity).
  cbn [fst].
  rewrite (insert_one_file _ 1) by (cbn; lia || reflexivity).
  reflexivity.
Qed.

Lemma host_dispatched_twice_witness :
  let s := (insert_new_client (insert_new_client (init draws_zero)).1).1 in
  reachable s /\
  status_list s = replicate 5 false /\
  reachable (update (update s).1).1 /\
  exists c1 c2,
    threads (update (update s).1).1 = [Thread 0 c1; Thread 0 c2] /\
    status_list (update (update s).1).1 = replicate 5 false /\
    c1 <> c2.
Proof.
  intros s.
  assert (Hr : reachable s) by (apply reach_insert, reach_insert, reach_init).
  assert (Heq : s = App 2 3 1000
                      [Client 1 [1%Z] 0 (coefficient_formula 1 0 1);
                       Client 2 [1%Z] 0 (coefficient_formula 2 0 1)]
                      (replicate 5 false) [] draws_zero)
    by (unfold s; apply insert_init_twice).
  assert (Hst : status_list s = replicate 5 false) by (rewrite Heq; reflexivity).
  assert (Hth : threads s = []) by (rewrite Heq; reflexivity).
  assert (Hne : clients_list s <> []) by (rewrite Heq; discriminate).
  assert (Hne1 : clients_list (update s).1 <> []).
  { destruct (update_tick s (reachable_wf s Hr)) as (s1 & -> & Htick). cbn [fst].
    destruct (tick_dispatch s s1 0 (reachable_wf s Hr) Htick Hne)
      as (_ & _ & _ & _ & _ & Hlen & _); [rewrite Hst; reflexivity|].
    rewrite Heq in Hlen. cbn in Hlen. intros Hnil. rewrite Hnil in Hlen. cbn in Hlen. lia. }
  split; [exact Hr|]. split; [exact Hst|].
  destruct (host_dispatched_twice s 0 Hr Hne) as (Hr2 & c1 & c2 & H1 & _ & H2 & _ & _ & Hdiff);
    [rewrite Hst; reflexivity|intros j Hj; lia|exact Hne1|].
  split; [exact Hr2|].
  exists c1, c2. rewrite H1, H2, Hth, Hst. split; [reflexivity|]. split; [reflexivity|].
  apply Hdiff. intros cl Hin _. rewrite Heq in Hin. cbn in Hin.
  apply elem_of_cons in Hin as [->|Hin]; [eexists; reflexivity|].
  apply elem_of_cons in Hin as [->|Hin]; [eexists; reflexivity|].
  apply elem_of_nil in Hin. contradiction.
Defined.








(** ** The coefficient expression in the runs of the application *)



(** Outside the runs: the counter is never negative and file sizes come from
    [randint(1, 1000)], so no run passes two negative arguments; set by hand
    to -1 and -5, their quotient is positive and the expression returns
    [log_half 5]. *)
Remark coefficient_negative_arguments :
  coefficient (-1) 0 [(-5)%Z] = Ok (log_half 5).
Proof.
  rewrite coefficient_pos by lia. f_equal. unfold coefficient_formula.
  replace (IZR (-5) / IZR (-1))%R with 5%R by (field; lra). lra.
Qed.

(** ** Started threads and refreshed coefficients *)

(** X5: in every reachable state there are five host flags, and every thread
    that was started is for a client id that had been given out, from 1 up to
    but not including the next id. *)
Theorem threads_for_issued_clients (s : AuctionIO) :
  reachable s ->
  length (status_list s) = 5%nat /\
  Forall (fun t => (1 <= th_client t < id s)%Z) (threads s).
Proof.
  intros Hs. destruct (reachable_settled s Hs) as [_ Hh _ _ _ _ Hth].
  split; [assumption|].
  eapply Forall_impl; [eassumption|]. cbn. intros t (_ & H). exact H.
Qed.

Lemma threads_for_issued_clients_witness :
  let s := (update (insert_new_client (init draws_five)).1).1 in
  reachable s /\
  threads s = [Thread 0 1] /\
  length (status_list s) = 5%nat /\
  Forall (fun t => (1 <= th_client t < id s)%Z) (threads s).
Proof.
  intros s.
  assert (Hr : reachable s) by (apply reach_update, reach_insert, reach_init).
  split; [exact Hr|].
  split; [unfold s; rewrite tick_serves_single_client; reflexivity|].
  apply (threads_for_issued_clients s Hr).
Defined.

(** X8: in every reachable state the loop of lines 221-225 returns, and of
    the coefficients it stores for two queued clients the greater is the one
    of the client that has waited longer when their first files are equal,
    and the one of the client with the smaller first file when they have
    waited equally long. *)
Theorem refreshed_coefficients_prefer_wait_and_small_files (s : AuctionIO) :
  reachable s ->
  exists l,
    refresh_loop (length (clients_list s)) 0 s
      = (set_clients_list (fun _ => l) s, Ok tt) /\
    length l = length (clients_list s) /\
    forall i j a b a' b' v w ra rb,
      clients_list s !! i = Some a -> clients_list s !! j = Some b ->
      l !! i = Some a' -> l !! j = Some b' ->
      cl_files a = v :: ra -> cl_files b = w :: rb ->
      (v = w -> (cl_time a < cl_time b)%Z ->
       (cl_coefficient a' < cl_coefficient b')%R) /\
      (cl_time a = cl_time b -> (v < w)%Z ->
       (cl_coefficient b' < cl_coefficient a')%R).
Proof.
  intros Hs. assert (Hwf := reachable_wf s Hs).
  assert (Hwf' := Hwf). destruct Hwf' as [Hcount Hfiles _ _].
  exists (refresh_row (num_clients s) <$> clients_list s). split; [|split].
  - destruct (clients_list s) as [|cl0 l0] eqn:Hl.
    + cbn [length refresh_loop fmap list_fmap]. run.
      destruct s; cbn in *; subst; reflexivity.
    + rewrite <- Hl in *.
      change 0%nat with (length (@nil client)).
      rewrite (refresh_loop_run (clients_list s) [] s);
        [reflexivity|reflexivity| |assumption].
      rewrite Hcount, Hl. cbn. lia.
  - apply length_fmap.
  - intros i j a b a' b' v w ra rb Ha Hb Ha' Hb' Hfa Hfb.
    rewrite list_lookup_fmap, Ha in Ha'. injection Ha' as <-.
    rewrite list_lookup_fmap, Hb in Hb'. injection Hb' as <-.
    cbn [cl_coefficient refresh_row]. rewrite Hfa, Hfb. cbn [hd].
    assert (Hc : (1 <= num_clients s)%Z).
    { rewrite Hcount. apply lookup_lt_Some in Ha. lia. }
    assert (Hv : (1 <= v)%Z).
    { eapply Forall_lookup_1 in Hfiles; [|exact Ha]. destruct Hfiles as (_ & H & _).
      rewrite Hfa in H. apply Forall_cons in H as [H _]. lia. }
    split.
    + intros -> Ht. apply formula_time_lt; [assumption|lia].
    + intros -> Hvw. apply formula_file_lt; assumption.
Qed.

(** A second client, with the single file 1, enters behind the client with
    the files 3 and 7 before any tick. *)
Lemma insert_init_three_seven_one :
  (insert_new_client (insert_new_client (init (draws_for [7%Z; 3%Z]))).1).1 =
    App 2 3 1000
        [Client 1 [3%Z; 7%Z] 0 (coefficient_formula 1 0 3);
         Client 2 [1%Z] 0 (coefficient_formula 2 0 1)]
        (replicate 5 false) []
        (fun n => draws_for [7%Z; 3%Z] (S (S (S (S (S n)))))).
Proof.
  rewrite insert_init_three_seven. cbn [fst].
  rewrite (insert_one_file _ 1) by (cbn; lia || reflexivity).
  reflexivity.
Qed.

Lemma refreshed_coefficients_prefer_wait_and_small_files_witness :
  let s := (insert_new_client (insert_new_client (init (draws_for [7%Z; 3%Z]))).1).1 in
  reachable s /\
  exists a' b',
    refresh_loop (length (clients_list s)) 0 s
      = (set_clients_list (fun _ => [a'; b']) s, Ok tt) /\
    (cl_coefficient a' < cl_coefficient b')%R.
Proof.
  intros s.
  assert (Hr : reachable s) by (apply reach_insert, reach_insert, reach_init).
  split; [exact Hr|].
  destruct (refreshed_coefficients_prefer_wait_and_small_files s Hr)
    as (l & Hrun & Hlen & Hpref).
  assert (Heq : clients_list s =
                  [Client 1 [3%Z; 7%Z] 0 (coefficient_formula 1 0 3);
                   Client 2 [1%Z] 0 (coefficient_formula 2 0 1)])
    by (unfold s; rewrite insert_init_three_seven_one; reflexivity).
  rewrite Heq in Hlen. cbn in Hlen.
  destruct l as [|a' [|b' [|c' l]]]; try discriminate.
  exists a', b'. split; [exact Hrun|].
  apply (Hpref 1%nat 0%nat (Client 2 [1%Z] 0 (coefficient_formula 2 0 1))
               (Client 1 [3%Z; 7%Z] 0 (coefficient_formula 1 0 3))
               b' a' 1%Z 3%Z [] [7%Z]);
    try (rewrite Heq; reflexivity); reflexivity.
Defined.
